(** * Industrial monitor dashboard: alert evaluation, state store,
      connection-mode selector and push-transport reconnect policy

    Shallow embedding of
      - state/store.js                       (module [Store])
      - modules/alerts/alert-manager.js      (module [AlertManager])
      - modules/dashboard/realtime-monitor.js (module [RealtimeMonitor])
      - services/websocket-service.js        (module [WebSocketService])

    Conventions of the embedding.
      - A JavaScript number is the rational it denotes ([Q]); comparisons,
        subtraction, [Math.abs] and the product [normalMax * 0.02] are the
        exact ones.
      - [new Date()] and [crypto.randomUUID()] are inputs: every operation
        that reads the clock or draws an identifier receives them as
        arguments.  A timestamp is the number of milliseconds since the
        epoch ([toISOString] renders it injectively).
      - A [Map] whose iteration order is observed (the active alerts, walked
        by [values()]) is an association list in insertion order; a [Map]
        that is only read and written by key is a [gmap].
      - A plain object that is spread and merged ([{...a, ...b}]) is a
        [gmap] from field names to values, and the spread is the
        left-biased union with the later operand on the left.
      - DOM rendering, logging and sound have no effect on the modelled
        state and are left out. *)

From Stdlib Require Import QArith Qabs Qround Qpower.
From stdpp Require Import base option list strings gmap fin_maps pretty.

Local Open Scope string_scope.
Local Open Scope list_scope.

(** ** JavaScript values *)

Module Js.

Definition Timestamp := Z.
Bind Scope Z_scope with Timestamp.

(** Values stored in plain objects. [VTime t] is the ISO string of the
    instant [t]. *)
Inductive Val :=
| VUndefined
| VNull
| VBool (b : bool)
| VNum (q : Q)
| VStr (s : string)
| VTime (t : Timestamp).

Abbreviation Obj := (gmap string Val).

(** [{...a, ...b}]: fields of [b] win. *)
Definition spread (a b : Obj) : Obj := b ∪ a.

(** [o.f]: reading an absent field gives [undefined]. *)
Definition field (o : Obj) (f : string) : Val := default VUndefined (o !! f).

(** ToBoolean. *)
Definition truthy (v : Val) : bool :=
  match v with
  | VUndefined | VNull => false
  | VBool b => b
  | VNum q => negb (Qeq_bool q 0)
  | VStr s => negb (String.eqb s "")
  | VTime _ => true
  end.

Definition Qltb (x y : Q) : bool := negb (Qle_bool y x).

(** [Number.prototype.toFixed(1)] on the exact value: the sign is split
    off, [n] is the integer closest to [10 * |x|] (the larger one on a
    tie) and is printed with one digit after the point.  (Values of
    magnitude [1e21] and more, which JavaScript prints in exponent
    notation, are printed in full here.) *)
Definition toFixed1 (x : Q) : string :=
  let neg := Qltb x 0 in
  let n := Z.to_N (Qfloor (Qabs x * 10 + (1 # 2))%Q) in
  (if neg then "-" else "") +:+
  pretty (n / 10)%N +:+ "." +:+ pretty (n mod 10)%N.

End Js.


(** ** state/store.js *)

Module Store.
Import Js.

(** [state.alerts.active] and [state.alerts.history] hold references to
    the same alert objects: [addAlert] pushes one object onto both arrays
    and [resolveAlert] later writes into it.  The objects therefore live
    in [alert_objects] (a reference is an index, allocation never reuses
    one) and the two arrays hold references. *)
Record State := mkState {
  motors : gmap string Obj;
  kpis : Obj;
  alert_objects : list Obj;
  alerts_active : list nat;
  alerts_history : list nat;
  systemStatus : Val;
  connection : Obj
}.

Definition initialMotor : Obj :=
  {[ "temperature" := VNum 0; "oil_pressure" := VNum 0;
     "clutch_pressure" := VNum 0; "status" := VStr "normal" ]}.

(** The state built by the constructor (and again by [reset]). *)
Definition initialState : State :=
  {| motors := {[ "motor1" := initialMotor; "motor2" := initialMotor ]};
     kpis := {[ "efficiency" := VStr "0%"; "uptime" := VStr "100%";
                "activeAlerts" := VNum 0 ]};
     alert_objects := [];
     alerts_active := [];
     alerts_history := [];
     systemStatus := VStr "connecting";
     connection := {[ "mode" := VStr "websocket"; "lastUpdate" := VNull ]} |}.

Definition set_motors (f : gmap string Obj -> gmap string Obj) (s : State) :=
  mkState (f (motors s)) (kpis s) (alert_objects s) (alerts_active s)
          (alerts_history s) (systemStatus s) (connection s).
Definition set_kpis (f : Obj -> Obj) (s : State) :=
  mkState (motors s) (f (kpis s)) (alert_objects s) (alerts_active s)
          (alerts_history s) (systemStatus s) (connection s).
Definition set_systemStatus (v : Val) (s : State) :=
  mkState (motors s) (kpis s) (alert_objects s) (alerts_active s)
          (alerts_history s) v (connection s).
Definition set_connection (f : Obj -> Obj) (s : State) :=
  mkState (motors s) (kpis s) (alert_objects s) (alerts_active s)
          (alerts_history s) (systemStatus s) (f (connection s)).
Definition set_alerts (objs : list Obj) (act hist : list nat) (s : State) :=
  mkState (motors s) (kpis s) objs act hist (systemStatus s) (connection s).

(** [updateState(section, data)] is dynamically typed; the repository
    calls it at two shapes, which are the two entry points here. The
    subscriber callbacks run by [_notify] and [_emitEvent] are wrapped in
    [try]/[catch] there and are not part of this state. *)

(** The sections that hold a flat object. *)
Inductive ObjectSection := Connection | Kpis.

(** [updateState('connection' | 'kpis', {...})]: the data is merged over
    the object of the section. *)
Definition updateState (section : ObjectSection) (data : Obj) (s : State) : State :=
  match section with
  | Connection => set_connection (fun old => spread old data) s
  | Kpis => set_kpis (fun old => spread old data) s
  end.

(** [updateState('systemStatus', v)]: the section holds a string, which is
    replaced (unless the current one is falsy, the guard at the top). *)
Definition updateSystemStatus (data : Val) (s : State) : State :=
  if negb (truthy (systemStatus s)) then s
  else set_systemStatus data s.

(** [updateMotor(motorId, data)]. *)
Definition updateMotor (motorId : string) (data : Obj) (now : Timestamp)
    (s : State) : State :=
  match motors s !! motorId with
  | None => s
  | Some old =>
      set_motors
        (fun m => <[ motorId := <[ "lastUpdate" := VTime now ]> (spread old data) ]> m)
        s
  end.

(** [Array.prototype.pop] after an [unshift], when the bound is passed. *)
Definition bounded_unshift {A} (bound : nat) (x : A) (l : list A) : list A :=
  let l' := x :: l in
  if (bound <? length l')%nat then removelast l' else l'.

(** [addAlert(alert)], with the identifier and the clock reading it
    draws. *)
Definition addAlert (alert : Obj) (uuid : string) (now : Timestamp)
    (s : State) : State :=
  let newAlert : Obj :=
    <[ "resolved" := VBool false ]>
      (<[ "timestamp" := VTime now ]>
         (<[ "id" := VStr uuid ]> alert)) in
  let ref := length (alert_objects s) in
  let active' := alerts_active s ++ [ref] in
  let history' := bounded_unshift 100 ref (alerts_history s) in
  set_kpis (fun k => <[ "activeAlerts" := VNum (inject_Z (Z.of_nat (length active'))) ]> k)
    (set_alerts (alert_objects s ++ [newAlert]) active' history' s).

Definition has_id (objs : list Obj) (alertId : string) (ref : nat) : bool :=
  match objs !! ref with
  | Some o => match field o "id" with
              | VStr i => String.eqb i alertId
              | _ => false
              end
  | None => false
  end.

(** [findIndex]: position of the first element satisfying [p]. *)
Fixpoint findIndex {A} (p : A -> bool) (l : list A) : option nat :=
  match l with
  | [] => None
  | x :: l' => if p x then Some 0 else S <$> findIndex p l'
  end.

(** [resolveAlert(alertId)] for a string identifier. *)
Definition resolveAlert (alertId : string) (now : Timestamp) (s : State) : State :=
  match findIndex (has_id (alert_objects s) alertId) (alerts_active s) with
  | None => s
  | Some alertIndex =>
      match alerts_active s !! alertIndex with
      | None => s
      | Some ref =>
          let objs' :=
            alter (fun o => <[ "resolvedAt" := VTime now ]>
                              (<[ "resolved" := VBool true ]> o))
                  ref (alert_objects s) in
          let active' := delete alertIndex (alerts_active s) in
          set_kpis (fun k => <[ "activeAlerts" := VNum (inject_Z (Z.of_nat (length active'))) ]> k)
            (set_alerts objs' active' (alerts_history s) s)
      end
  end.

Definition clearAlerts (s : State) : State :=
  set_kpis (fun k => <[ "activeAlerts" := VNum 0 ]> k)
    (set_alerts (alert_objects s) [] (alerts_history s) s).

(** [getActiveAlerts()]: the objects currently referenced by the active
    array. *)
Definition getActiveAlerts (s : State) : list Obj :=
  omap (fun r => alert_objects s !! r) (alerts_active s).


End Store.

(** ** modules/alerts/alert-manager.js *)

Module AlertManager.
Import Js.

Inductive Severity := Critical | Warning | Normal.

#[global] Instance Severity_eq_dec : EqDecision Severity.
Proof. solve_decision. Defined.

Definition severity_name (s : Severity) : string :=
  match s with
  | Critical => "critical"
  | Warning => "warning"
  | Normal => "normal"
  end.

(** One entry of [config.MOTORS[i].variables]: the threshold
    configuration of a variable. [critical] and [criticalLow] may be
    absent. *)
Record VariableConfig := mkVariable {
  v_key : string;
  v_name : string;
  v_unit : string;
  v_normalMin : Q;
  v_normalMax : Q;
  v_critical : option Q;
  v_criticalLow : option Q
}.

(** The object literal passed to [handleAlert]. *)
Record AlertData := mkAlertData {
  d_key : string;
  d_motor : string;
  d_motorId : string;
  d_variable : string;
  d_variableKey : string;
  d_value : string;
  d_unit : string;
  d_severity : Severity;
  d_message : string;
  d_timestamp : Timestamp
}.

(** An alert record of the manager. [a_updateCount] and [a_resolvedAt]
    are absent on some records (the demo history has no [updateCount]). *)
Record Alert := mkAlert {
  a_id : string;
  a_key : string;
  a_motor : string;
  a_motorId : string;
  a_variable : string;
  a_variableKey : string;
  a_value : string;
  a_unit : string;
  a_severity : Severity;
  a_message : string;
  a_timestamp : Timestamp;
  a_updateCount : option N;
  a_resolved : bool;
  a_resolvedAt : option Timestamp
}.

(** The alert as the plain object handed to the store. *)
Definition to_obj (a : Alert) : Obj :=
  let base : Obj :=
    {[ "id" := VStr (a_id a); "key" := VStr (a_key a);
       "motor" := VStr (a_motor a); "motorId" := VStr (a_motorId a);
       "variable" := VStr (a_variable a);
       "variableKey" := VStr (a_variableKey a);
       "value" := VStr (a_value a); "unit" := VStr (a_unit a);
       "severity" := VStr (severity_name (a_severity a));
       "message" := VStr (a_message a);
       "timestamp" := VTime (a_timestamp a);
       "resolved" := VBool (a_resolved a) ]} in
  let withCount :=
    match a_updateCount a with
    | Some n => <[ "updateCount" := VNum (inject_Z (Z.of_N n)) ]> base
    | None => base
    end in
  match a_resolvedAt a with
  | Some t => <[ "resolvedAt" := VTime t ]> withCount
  | None => withCount
  end.

(** *** The [Map] of active alerts, in insertion order *)

Definition ActiveMap := list (string * Alert).

Definition map_get (k : string) (m : ActiveMap) : option Alert :=
  snd <$> List.find (fun p => String.eqb (fst p) k) m.

Definition map_has (k : string) (m : ActiveMap) : bool :=
  match map_get k m with Some _ => true | None => false end.

(** [m.set(k, v)]: an existing entry keeps its position. *)
Fixpoint map_set (k : string) (v : Alert) (m : ActiveMap) : ActiveMap :=
  match m with
  | [] => [(k, v)]
  | (k', v') :: m' =>
      if String.eqb k' k then (k', v) :: m' else (k', v') :: map_set k v m'
  end.

(** [m.delete(k)]: the entry of the key goes (every entry of it, in a
    list that held several). *)
Definition map_delete (k : string) (m : ActiveMap) : ActiveMap :=
  List.filter (fun p => negb (String.eqb (fst p) k)) m.

(** [[...m.values()]]. *)
Definition map_values (m : ActiveMap) : list Alert := List.map snd m.

(** Writing through the reference returned by [Array.prototype.find]:
    the first element satisfying [p] is replaced by its image. *)
Fixpoint update_first {A} (p : A -> bool) (f : A -> A) (l : list A) : list A :=
  match l with
  | [] => []
  | x :: l' => if p x then f x :: l' else x :: update_first p f l'
  end.

(** *** State *)

Definition maxHistory : nat := 100.

(** The fields of the manager that the alert logic reads and writes,
    together with the store singleton it imports. ([filters] only drives
    rendering.) *)
Record State := mkState {
  activeAlerts : ActiveMap;
  alertHistory : list Alert;
  lastCheckedValues : gmap string Q;
  stateStore : Store.State
}.

(** What one call reads from its environment: the clock of the manager
    and its identifier draw, then the clock and the draw of the store. *)
Record Env := mkEnv {
  now : Timestamp;
  uuid : string;
  store_now : Timestamp;
  store_uuid : string
}.

(** [loadDemoHistory()] at clock reading [t]. *)
Definition demoAlerts (t : Timestamp) : list Alert :=
  [ mkAlert "demo-1" "motor1-temperature-demo" "Motor Principal" "motor1"
      "Temperatura" "temperature" "105.5" "°C" Critical
      "Motor Principal: Temperatura CRÍTICA (105.5°C)"
      (t - 3600000)%Z None true (Some (t - 3500000)%Z);
    mkAlert "demo-2" "motor2-oil_pressure-demo" "Motor Secundario" "motor2"
      "Presión de Aceite" "oil_pressure" "28.3" "Psi" Warning
      "Motor Secundario: Presión de Aceite BAJA (28.3Psi)"
      (t - 7200000)%Z None false None ].

(** The constructor followed by [initialize()]. *)
Definition init (t : Timestamp) (store : Store.State) : State :=
  {| activeAlerts := [];
     alertHistory := [] ++ demoAlerts t;
     lastCheckedValues := ∅;
     stateStore := store |}.

(** *** Operations *)

(** Lines 140 to 144: the writes to the record found under the key. *)
Definition updatedAlert (alertData : AlertData) (existingAlert : Alert) : Alert :=
  mkAlert (a_id existingAlert) (a_key existingAlert)
    (a_motor existingAlert) (a_motorId existingAlert)
    (a_variable existingAlert) (a_variableKey existingAlert)
    (d_value alertData) (a_unit existingAlert)
    (d_severity alertData) (d_message alertData)
    (d_timestamp alertData)
    (Some (default 0%N (a_updateCount existingAlert) + 1)%N)
    (a_resolved existingAlert) (a_resolvedAt existingAlert).

(** Lines 147 to 152: the record built when the key has no active
    alert. *)
Definition newAlert (alertData : AlertData) (id : string) : Alert :=
  mkAlert id (d_key alertData) (d_motor alertData)
    (d_motorId alertData) (d_variable alertData)
    (d_variableKey alertData) (d_value alertData) (d_unit alertData)
    (d_severity alertData) (d_message alertData)
    (d_timestamp alertData) (Some 1%N) false None.

(** [handleAlert(alertData)]. The record found under the key is written
    in place; it is referenced from the map only, the history holds the
    copy [{ ...newAlert }] made at creation, which these writes do not
    reach. *)
Definition handleAlert (alertData : AlertData) (env : Env) (s : State) : State :=
  match map_get (d_key alertData) (activeAlerts s) with
  | Some existingAlert =>
      {| activeAlerts :=
           map_set (d_key alertData) (updatedAlert alertData existingAlert)
             (activeAlerts s);
         alertHistory := alertHistory s;
         lastCheckedValues := lastCheckedValues s;
         stateStore := stateStore s |}
  | None =>
      let newAlert := newAlert alertData (uuid env) in
      {| activeAlerts := map_set (d_key alertData) newAlert (activeAlerts s);
         alertHistory :=
           Store.bounded_unshift maxHistory newAlert (alertHistory s);
         lastCheckedValues := lastCheckedValues s;
         stateStore :=
           Store.addAlert (to_obj newAlert) (store_uuid env) (store_now env)
             (stateStore s) |}
  end.

Definition mark_resolved (t : Timestamp) (a : Alert) : Alert :=
  mkAlert (a_id a) (a_key a) (a_motor a) (a_motorId a) (a_variable a)
    (a_variableKey a) (a_value a) (a_unit a) (a_severity a) (a_message a)
    (a_timestamp a) (a_updateCount a) true (Some t).

(** [resolveAlertByKey(alertKey)]: the history record written is the
    first one with the key, when there is one. *)
Definition resolveAlertByKey (alertKey : string) (env : Env) (s : State) : State :=
  match map_get alertKey (activeAlerts s) with
  | None => s
  | Some alert =>
      {| activeAlerts := map_delete alertKey (activeAlerts s);
         alertHistory :=
           update_first (fun a => String.eqb (a_key a) alertKey)
             (mark_resolved (now env)) (alertHistory s);
         lastCheckedValues := lastCheckedValues s;
         stateStore :=
           Store.resolveAlert (a_id alert) (store_now env) (stateStore s) |}
  end.

Definition resolveAlert (alertId : string) (resolvedBy : string) (env : Env)
    (s : State) : State :=
  match List.find (fun a => String.eqb (a_id a) alertId)
          (map_values (activeAlerts s)) with
  | None => s
  | Some alert => resolveAlertByKey (a_key alert) env s
  end.

Definition motorName (motorId : string) : string :=
  if String.eqb motorId "motor1" then "Motor Principal" else "Motor Secundario".

Definition alertKey (motorId : string) (variable : VariableConfig) : string :=
  motorId +:+ "-" +:+ v_key variable.

(** The [if]/[else if] chain of [checkThreshold] (lines 91 to 113): the
    severity and the message it leaves in the two local variables. *)
Definition evaluate (motorId : string) (variable : VariableConfig) (value : Q)
  : Severity * string :=
  let shown := "(" +:+ toFixed1 value +:+ v_unit variable +:+ ")" in
  let prefix := motorName motorId +:+ ": " +:+ v_name variable in
  if match v_critical variable with
     | Some c => Qle_bool c value
     | None => false
     end
  then (Critical, prefix +:+ " CRÍTICA " +:+ shown)
  else if match v_criticalLow variable with
          | Some c => Qle_bool value c
          | None => false
          end
  then (Critical, prefix +:+ " CRÍTICAMENTE BAJA " +:+ shown)
  else if Qltb (v_normalMax variable) value
  then (Warning, prefix +:+ " ALTA " +:+ shown)
  else if Qltb value (v_normalMin variable)
  then (Warning, prefix +:+ " BAJA " +:+ shown)
  else (Normal, "").

(** The guard of line 84. *)
Definition within_hysteresis (variable : VariableConfig) (value : Q)
    (lastValue : option Q) : bool :=
  match lastValue with
  | Some lv => Qltb (Qabs (value - lv)) (v_normalMax variable * 0.02)
  | None => false
  end.



(** Lines 117 to 128: the object literal handed to [handleAlert]. *)
Definition alertDataOf (motorId : string) (variable : VariableConfig)
    (value : Q) (severity : Severity) (message : string) (t : Timestamp)
  : AlertData :=
  mkAlertData (alertKey motorId variable) (motorName motorId) motorId
    (v_name variable) (v_key variable) (toFixed1 value) (v_unit variable)
    severity message t.

(** Line 88: the reading becomes the last checked value of the key. *)
Definition remember (key : string) (value : Q) (s : State) : State :=
  {| activeAlerts := activeAlerts s;
     alertHistory := alertHistory s;
     lastCheckedValues := <[ key := value ]> (lastCheckedValues s);
     stateStore := stateStore s |}.

(** [checkThreshold(motorId, variable, value)] for a reading that is a
    number. *)
Definition checkThreshold (motorId : string) (variable : VariableConfig) (value : Q)
    (env : Env) (s : State) : State :=
  let key := alertKey motorId variable in
  let lastValue := lastCheckedValues s !! key in
  if within_hysteresis variable value lastValue then s
  else
    let s1 := remember key value s in
    let '(severity, message) := evaluate motorId variable value in
    if negb (bool_decide (severity = Normal)) && negb (String.eqb message "")
    then
      handleAlert
        (alertDataOf motorId variable value severity message (now env))
        env s1
    else if map_has key (activeAlerts s1) then resolveAlertByKey key env s1
    else s1.

Definition clearResolvedAlerts (s : State) : State :=
  {| activeAlerts := activeAlerts s;
     alertHistory := List.filter (fun a => negb (a_resolved a)) (alertHistory s);
     lastCheckedValues := lastCheckedValues s;
     stateStore := stateStore s |}.

Definition destroy (s : State) : State :=
  {| activeAlerts := [];
     alertHistory := [];
     lastCheckedValues := ∅;
     stateStore := stateStore s |}.

(** *** Runs of the manager *)

(** What can happen to a manager after its construction.
    [checkMotorAlerts] is a sequence of [checkThreshold] calls, one per
    configured variable with a defined reading, so it is a sequence of
    [Check] events. [StoreWrite] is a write to the shared store by another
    module. *)
Inductive Event :=
| Check (motorId : string) (variable : VariableConfig) (value : Q) (env : Env)
| Resolve (alertId : string) (resolvedBy : string) (env : Env)
| ClearResolved
| Destroy
| StoreWrite (store : Store.State).

Definition step (s : State) (e : Event) : State :=
  match e with
  | Check motorId variable value env => checkThreshold motorId variable value env s
  | Resolve alertId resolvedBy env => resolveAlert alertId resolvedBy env s
  | ClearResolved => clearResolvedAlerts s
  | Destroy => destroy s
  | StoreWrite store =>
      {| activeAlerts := activeAlerts s;
         alertHistory := alertHistory s;
         lastCheckedValues := lastCheckedValues s;
         stateStore := store |}
  end.

Definition run (s : State) (es : list Event) : State := fold_left step es s.

Inductive reachable : State -> Prop :=
| reachable_init t store : reachable (init t store)
| reachable_step s e : reachable s -> reachable (step s e).

(** *** Invariant of the runs *)

(** An entry of the active map is stored under the key its record
    carries, the key is built from the record's motor and variable, the
    record is unresolved and has been counted at least once. *)
Definition entry_ok (p : string * Alert) : Prop :=
  a_key p.2 = p.1 /\
  p.1 = a_motorId p.2 +:+ "-" +:+ a_variableKey p.2 /\
  a_resolved p.2 = false /\
  exists n, a_updateCount p.2 = Some n /\ (1 <= n)%N.

(** What [Array.prototype.find] returns in [resolveAlertByKey]. *)
Definition history_find (key : string) (history : list Alert) : option Alert :=
  List.find (fun a => String.eqb (a_key a) key) history.

(** While an alert is active, the first history record with its key, if
    there is one, is the copy made when the alert was created. *)
Definition history_tracks (s : State) : Prop :=
  forall k a h,
    map_get k (activeAlerts s) = Some a ->
    history_find k (alertHistory s) = Some h ->
    a_id h = a_id a /\ a_resolved h = false.

Record invariant (s : State) : Prop := mkInvariant {
  inv_nodup : NoDup (List.map fst (activeAlerts s));
  inv_entries : Forall entry_ok (activeAlerts s);
  inv_bound : length (alertHistory s) <= maxHistory;
  inv_tracks : history_tracks s
}.

End AlertManager.

(** ** modules/dashboard/realtime-monitor.js *)

Module RealtimeMonitor.
Import Js.

Inductive Mode := ModeNone | Websocket | Polling | Offline.

#[global] Instance Mode_eq_dec : EqDecision Mode.
Proof. solve_decision. Defined.

Definition mode_name (m : Mode) : string :=
  match m with
  | ModeNone => "none"
  | Websocket => "websocket"
  | Polling => "polling"
  | Offline => "offline"
  end.

Definition maxPollingRetries : nat := 3.

(** The fields of the monitor ([connectionState] and [metrics] are
    flattened; [pollingInterval] tells whether the handle is set), the
    store singleton, and what the browser holds for the monitor: whether
    [start()] has registered the listeners and the health check, the
    [setTimeout] callbacks of [scheduleRecoveryAttempt] that have not
    fired yet (by due time), and the polling cycles suspended at an
    [await] (by start time). *)
Record State := mkState {
  mode : Mode;
  lastSuccess : option Timestamp;
  errors : nat;
  isPollingActive : bool;
  pollingRetries : nat;
  pollingAttempts : nat;
  pollingSuccess : nat;
  pollingErrors : nat;
  lastPollDuration : Z;
  pollingInterval : bool;
  started : bool;
  stateStore : Store.State;
  recoveryTimers : list Timestamp;
  cyclesInFlight : list Timestamp
}.

Definition initial (store : Store.State) : State :=
  mkState ModeNone None 0 false 0 0 0 0 0 false false store [] [].

Definition set_mode (m : Mode) (s : State) : State :=
  mkState m (lastSuccess s) (errors s) (isPollingActive s) (pollingRetries s)
    (pollingAttempts s) (pollingSuccess s) (pollingErrors s) (lastPollDuration
    s) (pollingInterval s) (started s) (stateStore s) (recoveryTimers s)
    (cyclesInFlight s).
Definition set_lastSuccess (t : Timestamp) (s : State) : State :=
  mkState (mode s) (Some t) (errors s) (isPollingActive s) (pollingRetries s)
    (pollingAttempts s) (pollingSuccess s) (pollingErrors s) (lastPollDuration
    s) (pollingInterval s) (started s) (stateStore s) (recoveryTimers s)
    (cyclesInFlight s).
Definition set_errors (n : nat) (s : State) : State :=
  mkState (mode s) (lastSuccess s) n (isPollingActive s) (pollingRetries s)
    (pollingAttempts s) (pollingSuccess s) (pollingErrors s) (lastPollDuration
    s) (pollingInterval s) (started s) (stateStore s) (recoveryTimers s)
    (cyclesInFlight s).
Definition set_isPollingActive (b : bool) (s : State) : State :=
  mkState (mode s) (lastSuccess s) (errors s) b (pollingRetries s)
    (pollingAttempts s) (pollingSuccess s) (pollingErrors s) (lastPollDuration
    s) (pollingInterval s) (started s) (stateStore s) (recoveryTimers s)
    (cyclesInFlight s).
Definition set_pollingRetries (n : nat) (s : State) : State :=
  mkState (mode s) (lastSuccess s) (errors s) (isPollingActive s) n
    (pollingAttempts s) (pollingSuccess s) (pollingErrors s) (lastPollDuration
    s) (pollingInterval s) (started s) (stateStore s) (recoveryTimers s)
    (cyclesInFlight s).
Definition set_metrics (attempts success errs : nat) (duration : Z)
    (s : State) : State :=
  mkState (mode s) (lastSuccess s) (errors s) (isPollingActive s)
    (pollingRetries s) attempts success errs duration (pollingInterval s)
    (started s) (stateStore s) (recoveryTimers s) (cyclesInFlight s).
Definition set_pollingInterval (b : bool) (s : State) : State :=
  mkState (mode s) (lastSuccess s) (errors s) (isPollingActive s)
    (pollingRetries s) (pollingAttempts s) (pollingSuccess s) (pollingErrors
    s) (lastPollDuration s) b (started s) (stateStore s) (recoveryTimers s)
    (cyclesInFlight s).
Definition set_started (b : bool) (s : State) : State :=
  mkState (mode s) (lastSuccess s) (errors s) (isPollingActive s)
    (pollingRetries s) (pollingAttempts s) (pollingSuccess s) (pollingErrors
    s) (lastPollDuration s) (pollingInterval s) b (stateStore s)
    (recoveryTimers s) (cyclesInFlight s).
Definition with_store (f : Store.State -> Store.State) (s : State) : State :=
  mkState (mode s) (lastSuccess s) (errors s) (isPollingActive s)
    (pollingRetries s) (pollingAttempts s) (pollingSuccess s) (pollingErrors
    s) (lastPollDuration s) (pollingInterval s) (started s) (f (stateStore s))
    (recoveryTimers s) (cyclesInFlight s).
Definition set_recoveryTimers (l : list Timestamp) (s : State) : State :=
  mkState (mode s) (lastSuccess s) (errors s) (isPollingActive s)
    (pollingRetries s) (pollingAttempts s) (pollingSuccess s) (pollingErrors
    s) (lastPollDuration s) (pollingInterval s) (started s) (stateStore s) l
    (cyclesInFlight s).
Definition set_cyclesInFlight (l : list Timestamp) (s : State) : State :=
  mkState (mode s) (lastSuccess s) (errors s) (isPollingActive s)
    (pollingRetries s) (pollingAttempts s) (pollingSuccess s) (pollingErrors
    s) (lastPollDuration s) (pollingInterval s) (started s) (stateStore s)
    (recoveryTimers s) l.

(** The six draws of [Math.random()] made by [useSimulatedData], each in
    [[0, 1)]. *)
Record Draws := mkDraws {
  r1 : Q; r2 : Q; r3 : Q; r4 : Q; r5 : Q; r6 : Q
}.

(** The part of [config] read by [processPollingData]: the keys of the
    variables of [config.MOTORS[0]] and [config.MOTORS[1]]. [config] is
    not defined in the repository sources. *)
Record Config := mkConfig {
  motor1_variables : list string;
  motor2_variables : list string
}.

Definition pausePolling (s : State) : State := set_isPollingActive false s.

Definition resumePolling (s : State) : State := set_isPollingActive false s.

(** [start()]: besides the two assignments it registers the health
    check, the polling interval and the listeners. *)
Definition start (t : Timestamp) (s : State) : State :=
  set_started true
    (set_pollingInterval true (set_lastSuccess t (set_mode Websocket s))).

Definition useSimulatedData (t : Timestamp) (d : Draws) (s : State) : State :=
  let motor1Data : Obj :=
    {[ "temperature" := VNum (65 + r1 d * 55);
       "oil_pressure" := VNum (30 + r2 d * 35);
       "clutch_pressure" := VNum (100 + r3 d * 50);
       "status" := VStr "normal";
       "lastUpdate" := VTime t;
       "isSimulated" := VBool true ]} in
  let motor2Data : Obj :=
    {[ "temperature" := VNum (60 + r4 d * 60);
       "oil_pressure" := VNum (25 + r5 d * 45);
       "clutch_pressure" := VNum (105 + r6 d * 55);
       "status" := VStr "normal";
       "lastUpdate" := VTime t;
       "isSimulated" := VBool true ]} in
  with_store
    (fun st =>
       Store.updateSystemStatus (VStr "warning")
         (Store.updateMotor "motor2" motor2Data t
            (Store.updateMotor "motor1" motor1Data t st)))
    s.

(** [setTimeout(..., 30000)]. *)
Definition scheduleRecoveryAttempt (t : Timestamp) (s : State) : State :=
  set_recoveryTimers (recoveryTimers s ++ [(t + 30000)%Z]) s.

Definition activateOfflineMode (t : Timestamp) (d : Draws) (s : State) : State :=
  let s1 := set_mode Offline s in
  let s2 :=
    with_store
      (Store.updateState Store.Connection
         {[ "mode" := VStr "offline"; "status" := VStr "offline";
            "lastUpdate" := VTime t ]})
      s1 in
  scheduleRecoveryAttempt t (useSimulatedData t d s2).

(** The callback passed to [setTimeout] in [scheduleRecoveryAttempt]. *)
Definition recoveryAttempt (s : State) : State :=
  if decide (mode s = Offline) then
    resumePolling (set_pollingRetries 0 (set_mode Polling s))
  else s.

(** The three listeners of [setupConnectionListeners]. *)
Definition onWebsocketConnected (t : Timestamp) (s : State) : State :=
  let s1 := set_errors 0 (set_lastSuccess t (set_mode Websocket s)) in
  let s2 :=
    with_store
      (Store.updateState Store.Connection
         {[ "mode" := VStr "websocket"; "status" := VStr "connected";
            "lastUpdate" := VTime t ]})
      s1 in
  pausePolling s2.

Definition onWebsocketDisconnected (t : Timestamp) (s : State) : State :=
  let s1 := set_mode Polling s in
  let s2 :=
    with_store
      (Store.updateState Store.Connection
         {[ "mode" := VStr "polling"; "status" := VStr "disconnected";
            "lastRetry" := VTime t ]})
      s1 in
  resumePolling s2.

Definition onWebsocketMaxRetries (t : Timestamp) (d : Draws) (s : State) : State :=
  let s1 := set_mode Offline s in
  let s2 :=
    with_store
      (Store.updateState Store.Connection
         {[ "mode" := VStr "offline"; "status" := VStr "failed";
            "lastUpdate" := VTime t ]})
      s1 in
  activateOfflineMode t d s2.

(** [new Date(state.connection.lastUpdate || 0)] in milliseconds; [None]
    is an invalid date, for which every comparison is false (a string
    that is not the rendering of a timestamp is taken not to parse). *)
Definition lastUpdate_ms (v : Val) : option Z :=
  if negb (truthy v) then Some 0%Z
  else match v with
       | VTime t => Some t
       | VNum q => Some (Z.quot (Qnum q) (Z.pos (Qden q)))
       | VBool _ => Some 1%Z
       | _ => None
       end.

Definition checkConnectionHealth (t : Timestamp) (s : State) : State :=
  let lastUpdate := lastUpdate_ms (field (Store.connection (stateStore s)) "lastUpdate") in
  let stale :=
    match lastUpdate with
    | Some u => (30 * 1000 <? t - u)%Z
    | None => false
    end in
  if stale && bool_decide (mode s = Websocket) then
    resumePolling
      (with_store
         (Store.updateState Store.Connection
            {[ "mode" := VStr "polling"; "status" := VStr "degraded" ]})
         (set_mode Polling s))
  else s.

(** [motor1Data] of [processPollingData]: the configured variables that
    the response defines, under their own keys. *)
Fixpoint collect (suffix : string) (variables : list string) (apiData : Obj) : Obj :=
  match variables with
  | [] => ∅
  | v :: rest =>
      let acc := collect suffix rest apiData in
      match field apiData (v +:+ suffix) with
      | VUndefined => acc
      | x => <[ v := x ]> acc
      end
  end.

Definition processPollingData (cfg : Config) (apiData : Obj) (t : Timestamp)
    (st : Store.State) : Store.State :=
  let motor1Data := collect "_motor1" (motor1_variables cfg) apiData in
  let motor2Data := collect "_motor2" (motor2_variables cfg) apiData in
  let complete (d : Obj) : Obj :=
    <[ "status" := VStr "normal" ]> (<[ "lastUpdate" := VTime t ]> d) in
  let st1 :=
    if bool_decide (motor1Data = ∅) then st
    else Store.updateMotor "motor1" (complete motor1Data) t st in
  let st2 :=
    if bool_decide (motor2Data = ∅) then st1
    else Store.updateMotor "motor2" (complete motor2Data) t st1 in
  if truthy (field apiData "timestamp") then
    Store.updateState Store.Connection
      {[ "lastUpdate" := field apiData "timestamp" ]} st2
  else st2.

Definition handlePollingError (errorMessage : string) (t : Timestamp)
    (d : Draws) (s : State) : State :=
  let s1 :=
    with_store
      (Store.updateState Store.Connection
         {[ "status" := VStr "error"; "lastError" := VTime t;
            "errorMessage" := VStr errorMessage ]})
      s in
  if (maxPollingRetries <=? pollingRetries s1)%nat
  then activateOfflineMode t d s1
  else s1.

(** [executePollingCycle] is an [async] function; it runs in two turns of
    the event loop. *)

(** The [catch] block followed by the [finally] block. *)
Definition cycleFailed (errorMessage : string) (t : Timestamp) (d : Draws)
    (s : State) : State :=
  let s1 :=
    set_metrics (pollingAttempts s) (pollingSuccess s) (S (pollingErrors s))
      (lastPollDuration s) s in
  let s2 := set_errors (S (errors s1)) s1 in
  let s3 := set_pollingRetries (S (pollingRetries s2)) s2 in
  let s4 := handlePollingError errorMessage t d s3 in
  set_isPollingActive false s4.

(** The rest of the [try] block after a response that is [ok] and parses,
    followed by the [finally] block. [startTime] is the clock reading
    taken when the cycle began. *)
Definition cycleSucceeded (cfg : Config) (apiData : Obj) (startTime t : Timestamp)
    (s : State) : State :=
  let s1 := with_store (processPollingData cfg apiData t) s in
  let duration := (t - startTime)%Z in
  let s2 :=
    set_metrics (pollingAttempts s1) (S (pollingSuccess s1)) (pollingErrors s1)
      duration s1 in
  let s3 := set_pollingRetries 0 s2 in
  let s4 := set_errors 0 (set_lastSuccess t s3) in
  let s5 :=
    with_store
      (Store.updateState Store.Connection
         {[ "mode" := VStr "polling"; "status" := VStr "connected";
            "lastUpdate" := VTime t; "latency" := VNum (inject_Z duration) ]})
      s4 in
  set_isPollingActive false s5.

(** First turn: from the call up to the first [await]. Without a token
    the [throw] is caught in the same turn. Otherwise the cycle is
    suspended on [fetch]. *)
Definition executePollingCycle (hasToken : bool) (t : Timestamp) (d : Draws)
    (s : State) : State :=
  if isPollingActive s then s
  else
    let s1 := set_isPollingActive true s in
    let s2 :=
      set_metrics (S (pollingAttempts s1)) (pollingSuccess s1)
        (pollingErrors s1) (lastPollDuration s1) s1 in
    if negb hasToken then cycleFailed "Usuario no autenticado" t d s2
    else set_cyclesInFlight (cyclesInFlight s2 ++ [t]) s2.

(** The callback of [setInterval] in [startFallbackPolling]. *)
Definition pollingTick (hasToken : bool) (t : Timestamp) (d : Draws)
    (s : State) : State :=
  if bool_decide (mode s = Polling) && negb (isPollingActive s)
  then executePollingCycle hasToken t d s
  else s.

(** [stop()] clears the polling interval; the health check, the
    listeners and the pending timers stay. *)
Definition stop (s : State) : State :=
  set_mode ModeNone
    (set_pollingRetries 0
       (set_isPollingActive false (set_pollingInterval false s))).

(** *** The event loop *)

(** What the browser can deliver to the monitor. [CycleSucceeds i] and
    [CycleFails i] resume the [i]-th suspended cycle. *)
Inductive Event :=
| Start
| WsConnected
| WsDisconnected
| WsMaxRetries (d : Draws)
| HealthCheck
| Tick (hasToken : bool) (d : Draws)
| CycleSucceeds (i : nat) (apiData : Obj)
| CycleFails (i : nat) (errorMessage : string) (d : Draws)
| RecoveryTimer (i : nat)
| Stop.

(** One turn of the event loop at clock reading [t]. [None]: the event
    cannot be delivered (a second [start()] on the same instance, which
    the controller never makes; an event before the listeners, the health
    check or the polling interval are registered; no such suspended
    cycle; no such timer, or one that is not due). *)
Definition step (cfg : Config) (s : State) (te : Timestamp * Event) : option State :=
  let '(t, e) := te in
  match e with
  | Start => if started s then None else Some (start t s)
  | WsConnected =>
      if started s then Some (onWebsocketConnected t s) else None
  | WsDisconnected =>
      if started s then Some (onWebsocketDisconnected t s) else None
  | WsMaxRetries d =>
      if started s then Some (onWebsocketMaxRetries t d s) else None
  | HealthCheck =>
      if started s then Some (checkConnectionHealth t s) else None
  | Tick hasToken d =>
      if pollingInterval s then Some (pollingTick hasToken t d s) else None
  | CycleSucceeds i apiData =>
      startTime ← cyclesInFlight s !! i;
      Some (cycleSucceeded cfg apiData startTime t
              (set_cyclesInFlight (delete i (cyclesInFlight s)) s))
  | CycleFails i errorMessage d =>
      _ ← cyclesInFlight s !! i;
      Some (cycleFailed errorMessage t d
              (set_cyclesInFlight (delete i (cyclesInFlight s)) s))
  | RecoveryTimer i =>
      due ← recoveryTimers s !! i;
      if (due <=? t)%Z
      then Some (recoveryAttempt
                   (set_recoveryTimers (delete i (recoveryTimers s)) s))
      else None
  | Stop => Some (stop s)
  end.

Fixpoint run (cfg : Config) (s : State) (trace : list (Timestamp * Event))
  : option State :=
  match trace with
  | [] => Some s
  | te :: rest => s' ← step cfg s te; run cfg s' rest
  end.

(** *** The transition table of the mode, as the specification states it *)

(** The signals of the mode selector. [Quiet] stands for the turns that
    carry no signal: a tick, the end of a cycle below the failure
    threshold, a health check that finds a recent update. *)
Inductive Signal :=
| SigStart
| SigConnected
| SigDisconnected
| SigExhausted
| SigLivenessTimeout
| SigPollingExhausted
| SigRecoveryElapsed
| SigStop
| Quiet.

Definition transition (m : Mode) (sg : Signal) : Mode :=
  match sg with
  | SigStart => Websocket
  | SigConnected => Websocket
  | SigDisconnected => Polling
  | SigExhausted => Offline
  | SigLivenessTimeout => match m with Websocket => Polling | _ => m end
  | SigPollingExhausted => Offline
  | SigRecoveryElapsed => match m with Offline => Polling | _ => m end
  | SigStop => ModeNone
  | Quiet => m
  end.

(** The signal a delivered event carries in a given state: a failing
    cycle is the exhaustion signal when it is the third in a row or later,
    a health check is the liveness timeout when the last update is more
    than 30 seconds old. *)
Definition signal (s : State) (te : Timestamp * Event) : Signal :=
  let '(t, e) := te in
  match e with
  | Start => SigStart
  | WsConnected => SigConnected
  | WsDisconnected => SigDisconnected
  | WsMaxRetries _ => SigExhausted
  | HealthCheck =>
      match lastUpdate_ms (field (Store.connection (stateStore s)) "lastUpdate") with
      | Some u => if (30 * 1000 <? t - u)%Z then SigLivenessTimeout else Quiet
      | None => Quiet
      end
  | Tick hasToken _ =>
      if bool_decide (mode s = Polling) && negb (isPollingActive s)
         && negb hasToken && (maxPollingRetries <=? S (pollingRetries s))%nat
      then SigPollingExhausted else Quiet
  | CycleSucceeds _ _ => Quiet
  | CycleFails _ _ _ =>
      if (maxPollingRetries <=? S (pollingRetries s))%nat
      then SigPollingExhausted else Quiet
  | RecoveryTimer _ => SigRecoveryElapsed
  | Stop => SigStop
  end.

(** *** Single flight *)

(** At most one cycle is suspended, and the flag is set while it is. *)
Definition single_flight (s : State) : Prop :=
  match cyclesInFlight s with
  | [] => True
  | [_] => isPollingActive s = true
  | _ => False
  end.

(** The turns in which [pausePolling], [resumePolling] or [stop] clear
    the flag. *)
Definition clears_flag (s : State) (te : Timestamp * Event) : bool :=
  let '(t, e) := te in
  match e with
  | WsConnected | WsDisconnected | Stop => true
  | HealthCheck =>
      match signal s te with
      | SigLivenessTimeout => bool_decide (mode s = Websocket)
      | _ => false
      end
  | RecoveryTimer _ => bool_decide (mode s = Offline)
  | _ => false
  end.

(** A run none of whose turns clears the flag from outside a cycle. *)
Fixpoint run_undisturbed (cfg : Config) (s : State)
    (trace : list (Timestamp * Event)) : option State :=
  match trace with
  | [] => Some s
  | te :: rest =>
      if clears_flag s te then None
      else s' ← step cfg s te; run_undisturbed cfg s' rest
  end.

(** *** Simulated readings *)

(** The store has a record for both motors (it does from its
    construction on, and no operation removes one). *)
Definition has_motors (st : Store.State) : Prop :=
  is_Some (Store.motors st !! "motor1") /\ is_Some (Store.motors st !! "motor2").

(** The record of a motor carries [isSimulated: true]. *)
Definition simulated (st : Store.State) (motorId : string) : Prop :=
  exists m : Obj,
    Store.motors st !! motorId = Some m /\ m !! "isSimulated" = Some (VBool true).

(** *** Metrics and recovery *)

(** Every attempt counted is a success, an error or a cycle still
    suspended. *)
Definition accounted (s : State) : Prop :=
  pollingAttempts s
  = pollingSuccess s + pollingErrors s + length (cyclesInFlight s).

(** Offline only with a recovery timer that has not fired. *)
Definition recovery_pending (s : State) : Prop :=
  mode s = Offline -> recoveryTimers s <> [].

End RealtimeMonitor.

(** ** services/websocket-service.js *)

Module WebSocketService.
Import Js.

(** [WebSocket.readyState]. *)
Inductive ReadyState := CONNECTING | OPEN | CLOSING | CLOSED.

#[global] Instance ReadyState_eq_dec : EqDecision ReadyState.
Proof. solve_decision. Defined.

Definition reconnectInterval : Q := 3000.
Definition maxRetries : nat := 10.

(** The connection fields of the service and the store singleton. *)
Record State := mkState {
  socket : option ReadyState;
  currentRetries : nat;
  isManualClose : bool;
  stateStore : Store.State
}.

Definition initial (store : Store.State) : State := mkState None 0 false store.

(** What a handler hands to the browser: a document event, or a
    [setTimeout] of the reconnect callback with its delay in
    milliseconds. *)
Inductive Effect :=
| Dispatch (eventName : string)
| SetTimeout (delay : Q).

Definition isConnected (s : State) : bool :=
  match socket s with
  | Some rs => bool_decide (rs = OPEN)
  | None => false
  end.

(** The delay computed in [scheduleReconnect] once the counter has been
    incremented to [retries]. *)
Definition reconnectDelay (retries : nat) : Q :=
  (reconnectInterval * 1.5 ^ (Z.of_nat retries - 1))%Q.

Definition scheduleReconnect (s : State) : State * list Effect :=
  if (maxRetries <=? currentRetries s)%nat then (s, [])
  else
    let retries := S (currentRetries s) in
    (mkState (socket s) retries (isManualClose s) (stateStore s),
     [SetTimeout (reconnectDelay retries)]).

(** [connect()]; [constructed] tells whether [new WebSocket(url)]
    returned a socket or threw. *)
Definition connect (constructed : bool) (s : State) : State * list Effect :=
  if isConnected s then (s, [])
  else
    let s1 := mkState (socket s) (currentRetries s) false (stateStore s) in
    if constructed
    then (mkState (Some CONNECTING) (currentRetries s1) false (stateStore s1), [])
    else scheduleReconnect s1.

(** The callback of the [setTimeout] in [scheduleReconnect]. *)
Definition reconnectCallback (constructed : bool) (s : State) : State * list Effect :=
  if negb (isManualClose s) then connect constructed s else (s, []).

Definition onopen (t : Timestamp) (s : State) : State * list Effect :=
  let store1 := Store.updateSystemStatus (VStr "connected") (stateStore s) in
  let store2 :=
    Store.updateState Store.Connection
      {[ "mode" := VStr "websocket"; "lastUpdate" := VTime t;
         "status" := VStr "connected" ]} store1 in
  (mkState (option_map (fun _ => OPEN) (socket s)) 0 (isManualClose s) store2,
   [Dispatch "websocket:connected"]).

Definition onclose (t : Timestamp) (s : State) : State * list Effect :=
  let store1 := Store.updateSystemStatus (VStr "disconnected") (stateStore s) in
  let store2 :=
    Store.updateState Store.Connection
      {[ "status" := VStr "disconnected"; "lastRetry" := VTime t ]} store1 in
  let s1 :=
    mkState (option_map (fun _ => CLOSED) (socket s)) (currentRetries s)
      (isManualClose s) store2 in
  if negb (isManualClose s1) && (currentRetries s1 <? maxRetries)%nat
  then scheduleReconnect s1
  else if negb (isManualClose s1)
  then (s1, [Dispatch "websocket:maxRetries"])
  else (s1, []).

Definition disconnect (s : State) : State * list Effect :=
  (mkState None (currentRetries s) true (stateStore s), []).

(** The same effect with its delay as a fraction in lowest terms. *)
Definition reduced (e : Effect) : Effect :=
  match e with
  | SetTimeout delay => SetTimeout (Qred delay)
  | Dispatch eventName => Dispatch eventName
  end.

(** The server stays unreachable: each socket closes without having
    opened, and each reconnect timer fires and builds the next socket.
    The effects of [n] such rounds, in order. *)
Fixpoint failingRounds (n : nat) (t : Timestamp) (s : State) : State * list Effect :=
  match n with
  | O => (s, [])
  | S n' =>
      let '(s1, out1) := onclose t s in
      let '(s2, out2) :=
        match out1 with
        | [SetTimeout _] => reconnectCallback true s1
        | _ => (s1, [])
        end in
      let '(s3, out3) := failingRounds n' t s2 in
      (s3, out1 ++ out2 ++ out3)
  end.

End WebSocketService.

(** ** A concrete plant *)

Module Scenario.
Import Js AlertManager.

(** Temperature with the bands used in the scenarios: normal from 60 to
    95, critical from 105. *)
Definition temperature : VariableConfig :=
  mkVariable "temperature" "Temperatura" "°C" 60 95 (Some 105%Q) None.

(** The [n]-th call of a run reads the clock at [n] and draws identifiers
    numbered [n]. *)
Definition env (n : nat) : Env :=
  mkEnv (Z.of_nat n) ("am-" +:+ pretty n) (Z.of_nat n) ("store-" +:+ pretty n).

Definition start : State := init 0 Store.initialState.



(** Motor 1 at 106 degrees, checked on a fresh manager. *)
Definition after_breach : State :=
  step start (Check "motor1" temperature 106 (env 1)).


(** *** The monitor *)

Definition draws : RealtimeMonitor.Draws :=
  RealtimeMonitor.mkDraws (1 # 2) (1 # 2) (1 # 2) (1 # 2) (1 # 2) (1 # 2).

Definition config : RealtimeMonitor.Config :=
  RealtimeMonitor.mkConfig
    ["temperature"; "oil_pressure"; "clutch_pressure"]
    ["temperature"; "oil_pressure"; "clutch_pressure"].

Definition reading : Obj := {[ "temperature_motor1" := VNum 70 ]}.

(** The clock readings of a trace never go back. *)
Fixpoint chronological (trace : list (Timestamp * RealtimeMonitor.Event)) : bool :=
  match trace with
  | (t1, _) :: (((t2, _) :: _) as rest) => (t1 <=? t2)%Z && chronological rest
  | _ => true
  end.

(** A minute of the monitor with the push transport down. The polling
    interval ticks every 5 seconds and the health check runs every 10.
    The push layer reports exhaustion at 1 s, again at 22 s and again at
    51 s (each report follows an explicit [connect()] that failed). The
    recovery timer of the first report fires at 31 s and polling starts;
    three cycles complete; the cycle begun at 50 s is still waiting for
    its response when the third report turns the mode to offline and,
    at 52 s, the recovery timer of the second report fires. *)
Definition outage : list (Timestamp * RealtimeMonitor.Event) :=
  let Tick := RealtimeMonitor.Tick true draws in
  let HealthCheck := RealtimeMonitor.HealthCheck in
  let WsMaxRetries := RealtimeMonitor.WsMaxRetries draws in
  let Done := RealtimeMonitor.CycleSucceeds 0 reading in
  [ (0, RealtimeMonitor.Start);
    (1000, WsMaxRetries);
    (5000, Tick);
    (10000, Tick); (10000, HealthCheck);
    (15000, Tick);
    (20000, Tick); (20000, HealthCheck);
    (22000, WsMaxRetries);
    (25000, Tick);
    (30000, Tick); (30000, HealthCheck);
    (31000, RealtimeMonitor.RecoveryTimer 0);
    (35000, Tick); (35400, Done);
    (40000, Tick); (40000, HealthCheck); (40400, Done);
    (45000, Tick); (45400, Done);
    (50000, Tick); (50000, HealthCheck);
    (51000, WsMaxRetries);
    (52000, RealtimeMonitor.RecoveryTimer 0);
    (55000, Tick) ]%Z.

(** The same overlap through the [websocket:disconnected] listener. *)
Definition reconnect_storm : list (Timestamp * RealtimeMonitor.Event) :=
  [ (0, RealtimeMonitor.Start);
    (1000, RealtimeMonitor.WsDisconnected);
    (5000, RealtimeMonitor.Tick true draws);
    (6000, RealtimeMonitor.WsDisconnected);
    (10000, RealtimeMonitor.Tick true draws) ]%Z.

End Scenario.

(** ** state/store.js: subscriptions and runs of the store *)

Module StoreRuns.
Import Js Store.

(** *** Subscribers *)

(** [this.subscribers]: the callbacks registered for each section, in
    registration order. A callback is known by its identity. *)
Abbreviation Subscribers := (gmap string (list nat)).

Definition callbacks (subs : Subscribers) (section : string) : list nat :=
  default [] (subs !! section).

(** [subscribe(section, callback)]: the callback is pushed on the array
    of the section (created empty when the section has none). *)
Definition subscribe (section : string) (callback : nat) (subs : Subscribers)
  : Subscribers :=
  <[ section := callbacks subs section ++ [callback] ]> subs.

(** [indexOf] followed by [splice(index, 1)] when the index is not -1. *)
Fixpoint remove_first (x : nat) (l : list nat) : list nat :=
  match l with
  | [] => []
  | y :: l' => if Nat.eqb y x then l' else y :: remove_first x l'
  end.

(** The function returned by [subscribe]: it works on the array the
    section had at subscription time, which is the array the section
    keeps for good. *)
Definition unsubscribe (section : string) (callback : nat) (subs : Subscribers)
  : Subscribers :=
  match subs !! section with
  | Some l => <[ section := remove_first callback l ]> subs
  | None => subs
  end.

(** *** Runs *)

(** [reset()] builds the initial state again. *)
Definition reset (s : State) : State := initialState.

(** The calls that write the state. *)
Inductive Op :=
| UpdateState (section : ObjectSection) (data : Obj)
| UpdateSystemStatus (data : Val)
| UpdateMotor (motorId : string) (data : Obj) (now : Timestamp)
| AddAlert (alert : Obj) (uuid : string) (now : Timestamp)
| ResolveAlert (alertId : string) (now : Timestamp)
| ClearAlerts
| Reset.

Definition apply (s : State) (op : Op) : State :=
  match op with
  | UpdateState section data => updateState section data s
  | UpdateSystemStatus data => updateSystemStatus data s
  | UpdateMotor motorId data now => updateMotor motorId data now s
  | AddAlert alert uuid now => addAlert alert uuid now s
  | ResolveAlert alertId now => resolveAlert alertId now s
  | ClearAlerts => clearAlerts s
  | Reset => reset s
  end.

Definition run (s : State) (ops : list Op) : State := fold_left apply ops s.

(** The two alert arrays refer to allocated objects, each at most once,
    and the history is within its bound. *)
Record alerts_ok (s : State) : Prop := mkAlertsOk {
  ok_active : Forall (fun r => r < length (alert_objects s)) (alerts_active s);
  ok_history : Forall (fun r => r < length (alert_objects s)) (alerts_history s);
  ok_active_nodup : NoDup (alerts_active s);
  ok_history_nodup : NoDup (alerts_history s);
  ok_bound : length (alerts_history s) <= 100
}.

(** No active alert carries the identifier. *)
Definition id_unused (alertId : string) (s : State) : Prop :=
  Forall (fun r => has_id (alert_objects s) alertId r = false) (alerts_active s).

End StoreRuns.

(** ** modules/alerts/alert-manager.js: batch checks, views and statistics *)

Module AlertViews.
Import Js AlertManager.

(** *** [checkMotorAlerts] *)

(** One entry of [config.MOTORS] ([config] is not defined in the
    repository sources). *)
Record MotorConfig := mkMotor {
  m_id : string;
  m_variables : list VariableConfig
}.

Definition findMotor (MOTORS : list MotorConfig) (motorId : string)
  : option MotorConfig :=
  List.find (fun m => String.eqb (m_id m) motorId) MOTORS.

(** The inner [forEach]: one check per configured variable whose reading
    is defined. [envOf] gives what the call for a motor and a variable
    reads from its environment. *)
Definition checkMotor (motorId : string) (variables : list VariableConfig)
    (motorData : gmap string Q) (envOf : string -> string -> Env)
    (s : State) : State :=
  fold_left
    (fun s variable =>
       match motorData !! v_key variable with
       | Some value =>
           checkThreshold motorId variable value (envOf motorId (v_key variable)) s
       | None => s
       end)
    variables s.

(** [checkMotorAlerts(motorsData)] for numeric readings; [motorsData]
    lists the motors in the order [Object.keys] walks them. *)
Definition checkMotorAlerts (MOTORS : list MotorConfig)
    (motorsData : list (string * gmap string Q))
    (envOf : string -> string -> Env) (s : State) : State :=
  fold_left
    (fun s entry =>
       match findMotor MOTORS entry.1 with
       | Some motorConfig =>
           checkMotor entry.1 (m_variables motorConfig) entry.2 envOf s
       | None => s
       end)
    motorsData s.

(** The [checkThreshold] calls made by [checkMotorAlerts], in order. *)
Definition motorEvents (motorId : string) (variables : list VariableConfig)
    (motorData : gmap string Q) (envOf : string -> string -> Env) : list Event :=
  flat_map
    (fun variable =>
       match motorData !! v_key variable with
       | Some value =>
           [Check motorId variable value (envOf motorId (v_key variable))]
       | None => []
       end)
    variables.

Definition batchEvents (MOTORS : list MotorConfig)
    (motorsData : list (string * gmap string Q))
    (envOf : string -> string -> Env) : list Event :=
  flat_map
    (fun entry : string * gmap string Q =>
       match findMotor MOTORS entry.1 with
       | Some motorConfig =>
           motorEvents entry.1 (m_variables motorConfig) entry.2 envOf
       | None => []
       end)
    motorsData.

(** *** [renderFilteredAlerts] *)

(** [this.filters]. *)
Record Filters := mkFilters {
  f_severity : string;
  f_motor : string;
  f_resolved : bool
}.

Definition defaultFilters : Filters := mkFilters "all" "all" false.

(** The predicate passed to [this.alertHistory.filter]. *)
Definition matches (filters : Filters) (alert : Alert) : bool :=
  let matches1 :=
    if negb (String.eqb (f_severity filters) "all")
    then true && String.eqb (severity_name (a_severity alert)) (f_severity filters)
    else true in
  let matches2 :=
    if negb (String.eqb (f_motor filters) "all")
    then matches1 && String.eqb (a_motorId alert) (f_motor filters)
    else matches1 in
  if negb (f_resolved filters)
  then matches2 && negb (a_resolved alert)
  else matches2.

Definition filteredAlerts (filters : Filters) (history : list Alert) : list Alert :=
  List.filter (matches filters) history.

(** *** [getStats] *)

Record Stats := mkStats {
  st_active : nat;
  st_totalHistory : nat;
  st_resolved : nat;
  st_critical : nat;
  st_warning : nat;
  st_info : nat
}.

Definition countSeverity (name : string) (history : list Alert) : nat :=
  length (List.filter (fun a => String.eqb (severity_name (a_severity a)) name) history).

Definition getStats (s : State) : Stats :=
  {| st_active := length (activeAlerts s);
     st_totalHistory := length (alertHistory s);
     st_resolved := length (List.filter a_resolved (alertHistory s));
     st_critical := countSeverity "critical" (alertHistory s);
     st_warning := countSeverity "warning" (alertHistory s);
     st_info := countSeverity "info" (alertHistory s) |}.

(** *** The badge of [renderActiveAlerts] *)

Definition severityRank (s : Severity) : nat :=
  match s with
  | Critical => 3
  | Warning => 2
  | Normal => 0
  end.

(** The [reduce] that finds the highest severity among the active
    alerts. *)
Definition maxSeverity (alerts : list Alert) : Severity :=
  fold_left
    (fun max alert =>
       if (severityRank max <? severityRank (a_severity alert))%nat
       then a_severity alert else max)
    alerts Normal.

(** Text and class of the counter element. *)
Definition badge (s : State) : string * string :=
  let alerts := map_values (activeAlerts s) in
  match alerts with
  | [] => ("0", "alert-badge")
  | _ => (pretty (length alerts),
          "alert-badge alert-" +:+ severity_name (maxSeverity alerts))
  end.

(** *** Records are never normal *)

Definition severities_ok (s : State) : Prop :=
  Forall (fun a => a_severity a <> Normal) (alertHistory s) /\
  Forall (fun a => a_severity a <> Normal) (map_values (activeAlerts s)).

(** *** The identifiers drawn along a run *)

Definition envs (es : list Event) : list Env :=
  flat_map
    (fun e =>
       match e with
       | Check _ _ _ env => [env]
       | Resolve _ _ env => [env]
       | _ => []
       end)
    es.

(** No identifier drawn by the store is one drawn by the manager. *)
Definition draws_apart (es : list Event) : bool :=
  forallb
    (fun e1 =>
       forallb (fun e2 => negb (String.eqb (store_uuid e1) (uuid e2))) (envs es))
    (envs es).

(** A write of another module that leaves the alert objects, the
    active array and the [activeAlerts] figure of the store as they
    are. *)
Definition keeps_alerts (old new : Store.State) : Prop :=
  Store.alert_objects new = Store.alert_objects old /\
  Store.alerts_active new = Store.alerts_active old /\
  field (Store.kpis new) "activeAlerts" = field (Store.kpis old) "activeAlerts".

(** Along the run from [s], every write of another module is such a
    write. *)
Fixpoint foreign_writes_keep_alerts (s : State) (es : list Event) : Prop :=
  match es with
  | [] => True
  | e :: rest =>
      match e with
      | StoreWrite store => keeps_alerts (stateStore s) store
      | _ => True
      end /\ foreign_writes_keep_alerts (step s e) rest
  end.

(** What the manager and the store hold when the manager's identifiers
    are among [ManagerIds] and the store's among [StoreIds]. *)
Record apart (ManagerIds StoreIds : string -> Prop) (s : State) : Prop := mkApart {
  apart_manager :
    Forall (fun a => ManagerIds (a_id a)) (map_values (activeAlerts s));
  apart_store :
    Forall (fun o => exists u, field o "id" = VStr u /\ StoreIds u)
      (Store.alert_objects (stateStore s));
  apart_active :
    Store.alerts_active (stateStore s)
    = seq 0 (length (Store.alert_objects (stateStore s)));
  apart_open :
    Forall (fun o => field o "resolved" = VBool false)
      (Store.alert_objects (stateStore s));
  apart_count :
    length (activeAlerts s) <= length (Store.alert_objects (stateStore s));
  apart_kpi :
    field (Store.kpis (stateStore s)) "activeAlerts"
    = VNum (inject_Z (Z.of_nat (length (Store.alert_objects (stateStore s)))))
}.

End AlertViews.

(** ** services/websocket-service.js: runs and telemetry messages *)

Module SocketRuns.
Import Js WebSocketService.

(** *** Runs of the service *)

(** What the application and the browser deliver to the service: a call
    of [connect()] or [disconnect()], a reconnect timer that fires (with
    whether [new WebSocket] then succeeds), and the [open] and [close]
    events of the socket. *)
Inductive Event :=
| Connect (constructed : bool)
| TimerFires (constructed : bool)
| SocketOpens (t : Timestamp)
| SocketCloses (t : Timestamp)
| Disconnect.

Definition step (s : State) (e : Event) : State * list Effect :=
  match e with
  | Connect constructed => connect constructed s
  | TimerFires constructed => reconnectCallback constructed s
  | SocketOpens t => onopen t s
  | SocketCloses t => onclose t s
  | Disconnect => disconnect s
  end.

(** The state after the events and the effects handed to the browser, in
    order. *)
Fixpoint run (s : State) (es : list Event) : State * list Effect :=
  match es with
  | [] => (s, [])
  | e :: rest =>
      let '(s1, out1) := step s e in
      let '(s2, out2) := run s1 rest in
      (s2, out1 ++ out2)
  end.


(** Every timer among the effects has one of the ten delays. *)
Definition scheduled_ok (out : list Effect) : Prop :=
  forall delay, In (SetTimeout delay) out ->
    exists n, 1 <= n <= 10 /\ delay = reconnectDelay n.

(** *** A [telemetry_latest] message *)

(** How a handler ends. *)
Inductive Outcome := Returned | Threw.

#[global] Instance Outcome_eq_dec : EqDecision Outcome.
Proof. solve_decision. Defined.

(** Statement sequencing: what follows a [throw] does not run. *)
Definition andThen (a b : Outcome) : Outcome :=
  match a with
  | Returned => b
  | Threw => Threw
  end.

(** [hay.includes(needle)]. *)
Fixpoint includes (needle hay : string) : bool :=
  if String.prefix needle hay then true
  else match hay with
       | EmptyString => false
       | String _ rest => includes needle rest
       end.

(** [hay.replace(pattern, replacement)] for a string pattern and a
    replacement without [$]: the first occurrence is replaced. *)
Fixpoint replace (pattern replacement hay : string) : string :=
  if String.prefix pattern hay
  then replacement
       +:+ String.substring (String.length pattern)
             (String.length hay - String.length pattern) hay
  else match hay with
       | EmptyString => EmptyString
       | String c rest => String c (replace pattern replacement rest)
       end.

(** The pattern begins nowhere inside [v] when it is appended to [v]. *)
Fixpoint clean (pattern v : string) : bool :=
  match v with
  | EmptyString => true
  | String _ rest =>
      negb (String.prefix pattern (v +:+ pattern)) && clean pattern rest
  end.

(** [payload.data]: the readings of a message as the entries of the
    object, in the order of [Object.keys]; the values are numbers and a
    key occurs once. *)
Abbreviation Readings := (list (string * Q)).

(** [data[key]]. *)
Definition reading (data : Readings) (key : string) : option Q :=
  snd <$> List.find (fun entry => String.eqb entry.1 key) data.

(** The first loop of [handleTelemetryLatest]: the store's own writes
    (what the subscribers of the motors section do when notified is not
    part of it). *)
Definition storeReadings (data : Readings) (now : Timestamp) (st : Store.State)
  : Store.State :=
  fold_left
    (fun st entry =>
       let key := entry.1 in
       if includes "motor1" key then
         Store.updateMotor "motor1"
           {[ replace "_motor1" "" key := VNum entry.2 ]} now st
       else if includes "motor2" key then
         Store.updateMotor "motor2"
           {[ replace "_motor2" "" key := VNum entry.2 ]} now st
       else st)
    data st.

(** [this.alertManager.addAlert(...)]: the class [AlertManager] has no
    method [addAlert], so the call throws a [TypeError]. *)
Definition addAlert : Outcome := Threw.

(** [checkThreshold(motorId, variable, value)] of the service: three
    independent tests, each followed by a call of [addAlert]. *)
Definition checkThreshold (motorId : string)
    (variable : AlertManager.VariableConfig) (value : Q) : Outcome :=
  andThen
    (if match AlertManager.v_critical variable with
        | Some c => Qle_bool c value
        | None => false
        end
     then addAlert else Returned)
    (andThen
       (if match AlertManager.v_criticalLow variable with
           | Some c => Qle_bool value c
           | None => false
           end
        then addAlert else Returned)
       (if Qltb (AlertManager.v_normalMax variable) value
           || Qltb value (AlertManager.v_normalMin variable)
        then addAlert else Returned)).

(** One half of [checkForAlerts]: [find] may give [undefined], on which
    [.variables] throws; [forEach] stops at the first throw. *)
Definition checkMotorReadings (MOTORS : list AlertViews.MotorConfig)
    (motorId suffix : string) (data : Readings) : Outcome :=
  match AlertViews.findMotor MOTORS motorId with
  | None => Threw
  | Some motorConfig =>
      fold_left
        (fun done v =>
           andThen done
             match reading data (AlertManager.v_key v +:+ suffix) with
             | Some value => checkThreshold motorId v value
             | None => Returned
             end)
        (AlertViews.m_variables motorConfig) Returned
  end.

Definition checkForAlerts (MOTORS : list AlertViews.MotorConfig) (data : Readings)
  : Outcome :=
  andThen (checkMotorReadings MOTORS "motor1" "_motor1" data)
    (checkMotorReadings MOTORS "motor2" "_motor2" data).

(** [handleTelemetryLatest(payload)]; [None] stands for a payload
    without [data]. The store is returned as it is when the handler
    ends, whichever way. *)
Definition handleTelemetryLatest (MOTORS : list AlertViews.MotorConfig)
    (data : option Readings) (now : Timestamp) (st : Store.State)
  : Outcome * Store.State :=
  match data with
  | None => (Returned, st)
  | Some data =>
      let st1 := storeReadings data now st in
      match checkForAlerts MOTORS data with
      | Threw => (Threw, st1)
      | Returned =>
          (Returned,
           Store.updateState Store.Connection
             {[ "lastUpdate" := VTime now ]} st1)
      end
  end.

(** [socket.onmessage] for a message of type [telemetry_latest] that
    parses: the handler, then the write of [lastUpdate], inside a [try]
    whose [catch] logs. *)
Definition onmessage (MOTORS : list AlertViews.MotorConfig)
    (data : option Readings) (now : Timestamp) (st : Store.State) : Store.State :=
  match handleTelemetryLatest MOTORS data now st with
  | (Returned, st1) =>
      Store.updateState Store.Connection {[ "lastUpdate" := VTime now ]} st1
  | (Threw, st1) => st1
  end.

(** Some configured variable of motor 1 or motor 2 has a reading in the
    message that the alert manager's rule does not call normal. *)
Definition breach (MOTORS : list AlertViews.MotorConfig) (data : Readings) : Prop :=
  exists motorId motorConfig v value,
    (motorId = "motor1" \/ motorId = "motor2") /\
    AlertViews.findMotor MOTORS motorId = Some motorConfig /\
    In v (AlertViews.m_variables motorConfig) /\
    reading data (AlertManager.v_key v +:+ "_" +:+ motorId) = Some value /\
    (AlertManager.evaluate motorId v value).1 <> AlertManager.Normal.

End SocketRuns.

(** ** More of the concrete plant *)

Module Plant.
Import Js.

(** [config.MOTORS] with the temperature of both motors. *)
Definition MOTORS : list AlertViews.MotorConfig :=
  [ AlertViews.mkMotor "motor1" [Scenario.temperature];
    AlertViews.mkMotor "motor2" [Scenario.temperature] ].

(** A snapshot in which motor 1 is at 106 degrees. *)
Definition snapshot : list (string * gmap string Q) :=
  [ ("motor1", {[ "temperature" := 106%Q ]}) ].

Definition envOf (motorId key : string) : AlertManager.Env := Scenario.env 1.

(** Motor 1 breaches and recovers; in between the monitor writes the
    new reading to the store. *)
Definition breach_and_recovery : list AlertManager.Event :=
  [ AlertManager.Check "motor1" Scenario.temperature 106 (Scenario.env 1);
    AlertManager.StoreWrite
      (Store.updateMotor "motor1" {[ "temperature" := VNum 70 ]} 2
         (AlertManager.stateStore Scenario.after_breach));
    AlertManager.Check "motor1" Scenario.temperature 70 (Scenario.env 2) ].

(** The monitor is started and the push layer gives up one second
    later. *)
Definition gave_up : list (Timestamp * RealtimeMonitor.Event) :=
  [ (0, RealtimeMonitor.Start);
    (1000, RealtimeMonitor.WsMaxRetries Scenario.draws) ]%Z.

(** The monitor falls back to polling and starts a cycle. *)
Definition first_cycle : list (Timestamp * RealtimeMonitor.Event) :=
  [ (0, RealtimeMonitor.Start);
    (1000, RealtimeMonitor.WsDisconnected);
    (5000, RealtimeMonitor.Tick true Scenario.draws) ]%Z.

(** A monitor in offline mode, with simulated data in the store. *)
Definition offline : RealtimeMonitor.State :=
  RealtimeMonitor.activateOfflineMode 1000 Scenario.draws
    (RealtimeMonitor.initial Store.initialState).


(** A telemetry message with motor 1 at 106 degrees. *)
Definition hot : list (string * Q) := [ ("temperature_motor1", 106%Q) ].

End Plant.

(** * Properties *)

(** ** Comparisons on numbers *)

Section JsFacts.
Import Js.

Lemma Qltb_lt x y : Qltb x y = true <-> (x < y)%Q.
Proof.
  unfold Qltb. rewrite negb_true_iff. split.
  - intros H. apply Qnot_le_lt. intros Hle.
    apply Qle_bool_iff in Hle. congruence.
  - intros H. destruct (Qle_bool y x) eqn:E; [|reflexivity].
    apply Qle_bool_iff in E. exfalso. exact (Qlt_not_le _ _ H E).
Qed.

Lemma Qltb_ge x y : Qltb x y = false <-> (y <= x)%Q.
Proof. unfold Qltb. rewrite negb_false_iff. apply Qle_bool_iff. Qed.

Lemma Qle_bool_gt x y : Qle_bool x y = false <-> (y < x)%Q.
Proof.
  rewrite <- Qltb_lt. unfold Qltb. rewrite negb_true_iff. reflexivity.
Qed.

Example toFixed1_106 : toFixed1 106 = "106.0".
Proof. reflexivity. Qed.

Example toFixed1_tie : toFixed1 (125 # 100) = "1.3".
Proof. reflexivity. Qed.

Example toFixed1_small_negative : toFixed1 (- (1 # 100)) = "-0.0".
Proof. reflexivity. Qed.

End JsFacts.

(** ** The map of active alerts *)

Section ActiveMapFacts.
Import AlertManager.

Lemma map_get_set_eq k v m : map_get k (map_set k v m) = Some v.
Proof.
  unfold map_get. induction m as [|[k' v'] m IH]; simpl.
  - rewrite String.eqb_refl. reflexivity.
  - destruct (String.eqb k' k) eqn:E; simpl; rewrite E; [reflexivity|exact IH].
Qed.

Lemma map_get_set_ne k k' v m :
  k <> k' -> map_get k' (map_set k v m) = map_get k' m.
Proof.
  intros Hne. unfold map_get. induction m as [|[k0 v0] m IH]; simpl.
  - apply String.eqb_neq in Hne. rewrite Hne. reflexivity.
  - destruct (String.eqb k0 k) eqn:E; simpl.
    + apply String.eqb_eq in E. subst k0.
      apply String.eqb_neq in Hne. rewrite Hne. reflexivity.
    + destruct (String.eqb k0 k'); [reflexivity|exact IH].
Qed.

Lemma map_get_delete_eq k m : map_get k (map_delete k m) = None.
Proof.
  unfold map_get, map_delete. induction m as [|[k' v'] m IH]; simpl; [reflexivity|].
  destruct (String.eqb k' k) eqn:E; simpl; [exact IH|].
  rewrite E. exact IH.
Qed.

Lemma map_get_delete_ne k k' m :
  k <> k' -> map_get k' (map_delete k m) = map_get k' m.
Proof.
  intros Hne. unfold map_get, map_delete.
  induction m as [|[k0 v0] m IH]; simpl; [reflexivity|].
  destruct (String.eqb k0 k) eqn:E; simpl.
  - apply String.eqb_eq in E. subst k0.
    apply String.eqb_neq in Hne. rewrite Hne. exact IH.
  - destruct (String.eqb k0 k'); [reflexivity|exact IH].
Qed.

Lemma map_get_In k a m : map_get k m = Some a -> In (k, a) m.
Proof.
  unfold map_get. destruct (List.find _ m) as [[k' a']|] eqn:E; [|discriminate].
  simpl. intros [= <-]. apply List.find_some in E as [Hin Hk].
  simpl in Hk. apply String.eqb_eq in Hk. subst k'. exact Hin.
Qed.

Lemma map_get_None k m : map_get k m = None -> ~ In k (List.map fst m).
Proof.
  unfold map_get. destruct (List.find _ m) eqn:E; [discriminate|].
  intros _ Hin. apply List.in_map_iff in Hin as [[k' a] [Hk Hin]].
  simpl in Hk. subst k'.
  pose proof (List.find_none _ _ E _ Hin) as H. simpl in H.
  rewrite String.eqb_refl in H. discriminate.
Qed.

Lemma map_set_keys_present k v m a :
  map_get k m = Some a -> List.map fst (map_set k v m) = List.map fst m.
Proof.
  unfold map_get. induction m as [|[k' v'] m IH]; simpl; [discriminate|].
  destruct (String.eqb k' k) eqn:E; simpl; [reflexivity|].
  intros H. f_equal. exact (IH H).
Qed.

Lemma map_set_keys_absent k v m :
  map_get k m = None -> List.map fst (map_set k v m) = List.map fst m ++ [k].
Proof.
  unfold map_get. induction m as [|[k' v'] m IH]; simpl; [reflexivity|].
  destruct (String.eqb k' k) eqn:E; simpl; [discriminate|].
  intros H. f_equal. exact (IH H).
Qed.

Lemma map_set_length_present k v m a :
  map_get k m = Some a -> length (map_set k v m) = length m.
Proof.
  intros H. rewrite <- (length_map fst (map_set k v m)), <- (length_map fst m).
  f_equal. eapply map_set_keys_present; eassumption.
Qed.

Lemma map_set_In k v m p :
  In p (map_set k v m) -> p = (k, v) \/ In p m.
Proof.
  induction m as [|[k' v'] m IH]; simpl.
  - intros [<-|[]]. left. reflexivity.
  - destruct (String.eqb k' k) eqn:E; simpl.
    + apply String.eqb_eq in E. subst k'. intros [<-|H]; auto.
    + intros [<-|H]; auto. destruct (IH H); auto.
Qed.

Lemma map_delete_In k m p : In p (map_delete k m) -> In p m /\ fst p <> k.
Proof.
  unfold map_delete. intros H. apply List.filter_In in H as [Hin Hk].
  split; [exact Hin|]. apply negb_true_iff, String.eqb_neq in Hk. exact Hk.
Qed.

Lemma map_delete_keys k m :
  List.map fst (map_delete k m)
  = List.filter (fun k' => negb (String.eqb k' k)) (List.map fst m).
Proof.
  unfold map_delete. induction m as [|[k' v'] m IH]; simpl; [reflexivity|].
  destruct (String.eqb k' k); simpl; [exact IH|]. f_equal. exact IH.
Qed.

End ActiveMapFacts.

(** ** Threshold evaluation *)

Section Evaluation.
Import Js AlertManager.





End Evaluation.

(** ** [checkThreshold], [handleAlert] and [resolveAlertByKey] *)

Section CheckThreshold.
Import Js AlertManager.

Lemma update_first_length {A} (p : A -> bool) f (l : list A) :
  length (update_first p f l) = length l.
Proof.
  induction l as [|x l IH]; simpl; [reflexivity|].
  destruct (p x); simpl; [reflexivity|]. f_equal. exact IH.
Qed.








End CheckThreshold.

(** ** Hysteresis *)

Section Hysteresis.
Import Js AlertManager.





End Hysteresis.

(** ** Invariant of the alert manager *)

Section Invariant.
Import Js AlertManager.

Lemma bounded_unshift_cons {A} bound (x : A) l :
  1 <= bound ->
  Store.bounded_unshift bound x l
  = x :: (if (bound <? S (length l))%nat then removelast l else l).
Proof.
  intros Hb. unfold Store.bounded_unshift. simpl length.
  destruct (bound <? S (length l))%nat eqn:E; [|reflexivity].
  apply Nat.ltb_lt in E. destruct l as [|y l]; [simpl in E; lia|reflexivity].
Qed.

Lemma removelast_length {A} (l : list A) : length (removelast l) = pred (length l).
Proof.
  induction l as [|x l IH]; [reflexivity|].
  destruct l as [|y l]; [reflexivity|].
  change (removelast (x :: y :: l)) with (x :: removelast (y :: l)).
  simpl length in *. rewrite IH. reflexivity.
Qed.

Lemma bounded_unshift_length {A} bound (x : A) l :
  1 <= bound -> length l <= bound ->
  length (Store.bounded_unshift bound x l) <= bound.
Proof.
  intros Hb Hl. rewrite bounded_unshift_cons by exact Hb.
  destruct (bound <? S (length l))%nat eqn:E; simpl.
  - rewrite removelast_length. lia.
  - apply Nat.ltb_ge in E. lia.
Qed.

Lemma find_removelast {A} (p : A -> bool) l h :
  List.find p (removelast l) = Some h -> List.find p l = Some h.
Proof.
  induction l as [|x l IH]; [discriminate|].
  destruct l as [|y l]; [discriminate|].
  change (removelast (x :: y :: l)) with (x :: removelast (y :: l)).
  simpl List.find at 1. change (List.find p (x :: y :: l))
    with (if p x then Some x else List.find p (y :: l)).
  destruct (p x); [trivial|exact IH].
Qed.

Lemma find_update_first_other {A} (p q : A -> bool) f (l : list A) :
  (forall x, q x = true -> p x = false /\ p (f x) = false) ->
  List.find p (update_first q f l) = List.find p l.
Proof.
  intros Hq. induction l as [|x l IH]; [reflexivity|]. simpl.
  destruct (q x) eqn:E; simpl.
  - destruct (Hq x E) as [-> ->]. reflexivity.
  - rewrite IH. reflexivity.
Qed.

Lemma find_filter_keeps {A} (p q : A -> bool) (l : list A) h :
  List.find p l = Some h -> q h = true -> List.find p (List.filter q l) = Some h.
Proof.
  induction l as [|x l IH]; [discriminate|]. simpl.
  destruct (p x) eqn:Ep.
  - intros [= ->] Hq. rewrite Hq. simpl. rewrite Ep. reflexivity.
  - intros Hf Hq. destruct (q x); simpl; [rewrite Ep|]; auto.
Qed.

Lemma find_filter_none {A} (p q : A -> bool) (l : list A) :
  List.find p l = None -> List.find p (List.filter q l) = None.
Proof.
  induction l as [|x l IH]; [reflexivity|]. simpl.
  destruct (p x) eqn:Ep; [discriminate|].
  intros Hf. destruct (q x); simpl; [rewrite Ep|]; auto.
Qed.

Lemma map_set_absent k v m : map_get k m = None -> map_set k v m = m ++ [(k, v)].
Proof.
  unfold map_get. induction m as [|[k' v'] m IH]; simpl; [reflexivity|].
  destruct (String.eqb k' k); simpl; [discriminate|].
  intros H. f_equal. exact (IH H).
Qed.

Lemma invariant_init t store : invariant (init t store).
Proof.
  split; simpl.
  - constructor.
  - constructor.
  - unfold maxHistory. lia.
  - intros k a h Hget. discriminate.
Qed.

Lemma invariant_remember key value s : invariant s -> invariant (remember key value s).
Proof. intros [H1 H2 H3 H4]. split; assumption. Qed.

Lemma invariant_handleAlert d env s :
  d_key d = d_motorId d +:+ "-" +:+ d_variableKey d ->
  invariant s -> invariant (handleAlert d env s).
Proof.
  intros Hkey [Hnd Hent Hb Htr]. unfold handleAlert.
  destruct (map_get (d_key d) (activeAlerts s)) as [a|] eqn:Hget.
  - pose proof (map_get_In _ _ _ Hget) as Hin.
    pose proof (proj1 (List.Forall_forall _ _) Hent _ Hin) as (Ha1 & Ha2 & Ha3 & n & Ha4 & Hn).
    simpl in Ha1, Ha2, Ha3, Ha4.
    split; simpl.
    + erewrite map_set_keys_present by eassumption. exact Hnd.
    + apply List.Forall_forall. intros p Hp.
      apply map_set_In in Hp as [->|Hp].
      * repeat split; simpl; try assumption.
        exists (n + 1)%N. rewrite Ha4. simpl. split; [reflexivity|lia].
      * exact (proj1 (List.Forall_forall _ _) Hent _ Hp).
    + exact Hb.
    + intros k a' h Hg Hf. simpl in Hg, Hf.
      destruct (decide (d_key d = k)) as [<-|Hne].
      * rewrite map_get_set_eq in Hg. injection Hg as <-. simpl.
        exact (Htr _ _ _ Hget Hf).
      * rewrite map_get_set_ne in Hg by exact Hne. exact (Htr _ _ _ Hg Hf).
  - split; simpl.
    + rewrite map_set_keys_absent by exact Hget.
      apply NoDup_app. split; [exact Hnd|]. split.
      * intros k Hk [<-|[]]%list_elem_of_In. apply list_elem_of_In in Hk.
        exact (map_get_None _ _ Hget Hk).
      * apply NoDup_singleton.
    + rewrite map_set_absent by exact Hget.
      apply Forall_app. split; [exact Hent|].
      constructor; [|constructor].
      repeat split; simpl; try assumption; try reflexivity.
      exists 1%N. split; [reflexivity|lia].
    + apply bounded_unshift_length; [unfold maxHistory; lia|exact Hb].
    + intros k a' h Hg Hf. simpl in Hg, Hf.
      unfold history_find in Hf.
      rewrite bounded_unshift_cons in Hf by (unfold maxHistory; lia).
      destruct (decide (d_key d = k)) as [<-|Hne].
      * rewrite map_get_set_eq in Hg. injection Hg as <-.
        simpl in Hf. rewrite String.eqb_refl in Hf. injection Hf as <-.
        split; reflexivity.
      * rewrite map_get_set_ne in Hg by exact Hne.
        simpl in Hf. apply String.eqb_neq in Hne. rewrite Hne in Hf.
        apply (Htr _ _ _ Hg). unfold history_find.
        destruct (maxHistory <? S (length (alertHistory s)))%nat;
          [apply find_removelast|]; exact Hf.
Qed.

Lemma invariant_resolveAlertByKey key env s :
  invariant s -> invariant (resolveAlertByKey key env s).
Proof.
  intros [Hnd Hent Hb Htr]. unfold resolveAlertByKey.
  destruct (map_get key (activeAlerts s)) as [a|] eqn:Hget;
    [|split; assumption].
  split; simpl.
  - rewrite map_delete_keys. apply NoDup_ListNoDup, List.NoDup_filter.
    apply NoDup_ListNoDup. exact Hnd.
  - apply List.Forall_forall. intros p Hp. apply map_delete_In in Hp as [Hp _].
    exact (proj1 (List.Forall_forall _ _) Hent _ Hp).
  - rewrite update_first_length. exact Hb.
  - intros k a' h Hg Hf. simpl in Hg, Hf.
    destruct (decide (key = k)) as [<-|Hne].
    { rewrite map_get_delete_eq in Hg. discriminate. }
    rewrite map_get_delete_ne in Hg by exact Hne.
    apply (Htr _ _ _ Hg). unfold history_find in *.
    rewrite find_update_first_other in Hf; [exact Hf|].
    intros x Hx. apply String.eqb_eq in Hx. simpl.
    rewrite Hx. apply String.eqb_neq in Hne. auto.
Qed.

Lemma invariant_checkThreshold motorId variable value env s :
  invariant s -> invariant (checkThreshold motorId variable value env s).
Proof.
  intros Hinv. unfold checkThreshold.
  destruct (within_hysteresis _ _ _); [exact Hinv|].
  destruct (evaluate motorId variable value) as [sev msg].
  destruct (negb _ && negb _).
  - apply invariant_handleAlert; [reflexivity|].
    apply invariant_remember. exact Hinv.
  - destruct (map_has _ _).
    + apply invariant_resolveAlertByKey, invariant_remember. exact Hinv.
    + apply invariant_remember. exact Hinv.
Qed.

Lemma invariant_resolveAlert alertId resolvedBy env s :
  invariant s -> invariant (resolveAlert alertId resolvedBy env s).
Proof.
  intros Hinv. unfold resolveAlert.
  destruct (List.find _ _); [|exact Hinv].
  apply invariant_resolveAlertByKey. exact Hinv.
Qed.

Lemma invariant_clearResolvedAlerts s :
  invariant s -> invariant (clearResolvedAlerts s).
Proof.
  intros [Hnd Hent Hb Htr]. split; simpl; try assumption.
  - pose proof (List.filter_length_le (fun a => negb (a_resolved a)) (alertHistory s)).
    lia.
  - intros k a h Hg Hf. simpl in Hg, Hf. unfold history_find in *.
    destruct (List.find (fun x => String.eqb (a_key x) k) (alertHistory s))
      as [h0|] eqn:E.
    + destruct (Htr _ _ _ Hg E) as [Hid Hres].
      erewrite find_filter_keeps in Hf; [| exact E | rewrite Hres; reflexivity].
      injection Hf as <-. auto.
    + rewrite find_filter_none in Hf by exact E. discriminate.
Qed.

Lemma invariant_step s e : invariant s -> invariant (step s e).
Proof.
  intros Hinv. destruct e; simpl.
  - apply invariant_checkThreshold. exact Hinv.
  - apply invariant_resolveAlert. exact Hinv.
  - apply invariant_clearResolvedAlerts. exact Hinv.
  - split; simpl.
    + constructor.
    + constructor.
    + lia.
    + intros k a h Hg. discriminate.
  - destruct Hinv. split; assumption.
Qed.

Lemma reachable_invariant s : reachable s -> invariant s.
Proof.
  induction 1 as [t store|s e _ IH].
  - apply invariant_init.
  - apply invariant_step. exact IH.
Qed.

End Invariant.

(** ** Active alerts: one record per key, updated in place *)

Section Upsert.
Import Js AlertManager.

Lemma reachable_run s es : reachable s -> reachable (run s es).
Proof.
  revert s. induction es as [|e es IH]; intros s Hs; [exact Hs|].
  simpl. apply IH. constructor. exact Hs.
Qed.


End Upsert.

(** ** Resolution *)

Section Resolution.
Import Js AlertManager.




Lemma resolveAlert_noop s alertId resolvedBy env :
  (forall a, In a (map_values (activeAlerts s)) -> a_id a <> alertId) ->
  resolveAlert alertId resolvedBy env s = s.
Proof.
  intros Hno. unfold resolveAlert.
  destruct (List.find _ _) as [a|] eqn:E; [|reflexivity].
  apply List.find_some in E as [Hin Hid]. apply String.eqb_eq in Hid.
  exfalso. exact (Hno a Hin Hid).
Qed.

Lemma NoDup_map_inj {A B} (f : A -> B) (l : list A) x y :
  NoDup (List.map f l) -> In x l -> In y l -> f x = f y -> x = y.
Proof.
  induction l as [|z l IH]; simpl; [tauto|].
  intros Hnd Hx Hy Hf. apply NoDup_cons in Hnd as [Hz Hnd].
  destruct Hx as [->|Hx], Hy as [->|Hy]; auto.
  - exfalso. apply Hz. rewrite Hf. apply list_elem_of_In, List.in_map. exact Hy.
  - exfalso. apply Hz. rewrite <- Hf. apply list_elem_of_In, List.in_map. exact Hx.
Qed.

(** Once resolved, an identifier is no longer active, provided the
    identifiers drawn for the active alerts were pairwise distinct. *)
Lemma resolveAlert_removes_id s alertId resolvedBy env :
  invariant s ->
  NoDup (List.map a_id (map_values (activeAlerts s))) ->
  forall a,
    In a (map_values (activeAlerts (resolveAlert alertId resolvedBy env s))) ->
    a_id a <> alertId.
Proof.
  intros [_ Hent _ _] Hids a Hin. unfold resolveAlert in Hin.
  destruct (List.find _ _) as [alert|] eqn:E.
  - apply List.find_some in E as [Halert Hid]. apply String.eqb_eq in Hid.
    unfold resolveAlertByKey in Hin.
    destruct (map_get (a_key alert) (activeAlerts s)) eqn:Hget.
    + simpl in Hin. unfold map_values in Hin.
      apply List.in_map_iff in Hin as ([k' a'] & Ha & Hin). simpl in Ha. subst a'.
      apply map_delete_In in Hin as [Hin Hne]. simpl in Hne.
      intros Hid'. apply Hne.
      assert (a = alert) as ->.
      { eapply (NoDup_map_inj a_id); [exact Hids| |exact Halert|congruence].
        unfold map_values. apply List.in_map_iff. exists (k', a). auto. }
      pose proof (proj1 (List.Forall_forall _ _) Hent _ Hin) as (Hk & _).
      simpl in Hk. congruence.
    + exfalso. unfold map_values in Halert.
      apply List.in_map_iff in Halert as ([k' a'] & Ha & Hin'). simpl in Ha. subst a'.
      pose proof (proj1 (List.Forall_forall _ _) Hent _ Hin') as (Hk & _).
      simpl in Hk. apply (map_get_None _ _ Hget).
      apply List.in_map_iff. exists (k', alert). simpl. split; [congruence|exact Hin'].
  - intros Hid. pose proof (List.find_none _ _ E a Hin) as H. simpl in H.
    apply String.eqb_neq in H. contradiction.
Qed.

(** C7. Resolving an identifier that no active alert carries (one that
    was resolved before, or one that never existed) returns the state it
    was given: active alerts, history, last checked values and store are
    untouched; the function has no failing path. In particular, in a
    reachable state whose active alerts carry pairwise distinct
    identifiers, resolving the same identifier a second time changes
    nothing. *)
Theorem resolveAlert_inactive_id s alertId resolvedBy env :
  ((forall a, In a (map_values (activeAlerts s)) -> a_id a <> alertId) ->
   resolveAlert alertId resolvedBy env s = s /\
   activeAlerts (resolveAlert alertId resolvedBy env s) = activeAlerts s /\
   alertHistory (resolveAlert alertId resolvedBy env s) = alertHistory s) /\
  (reachable s ->
   NoDup (List.map a_id (map_values (activeAlerts s))) ->
   forall resolvedBy' env',
     resolveAlert alertId resolvedBy' env' (resolveAlert alertId resolvedBy env s)
     = resolveAlert alertId resolvedBy env s).
Proof.
  split.
  - intros Hno. rewrite resolveAlert_noop by exact Hno. auto.
  - intros Hs Hids resolvedBy' env'. apply resolveAlert_noop.
    apply resolveAlert_removes_id; [apply reachable_invariant; exact Hs|exact Hids].
Qed.

End Resolution.

(** ** Bounded history *)

Section History.
Import Js AlertManager.

(** C8. In every reachable state the history holds at most 100 records.
    When [handleAlert] opens a new alert, the record goes to the front;
    if the history was full, its last record, the oldest, is dropped,
    and the history stays within the bound. *)
Theorem history_capacity s :
  reachable s ->
  length (alertHistory s) <= 100 /\
  forall d env,
    map_get (d_key d) (activeAlerts s) = None ->
    alertHistory (handleAlert d env s)
    = newAlert d (uuid env) ::
        (if (length (alertHistory s) =? 100)%nat
         then removelast (alertHistory s) else alertHistory s) /\
    length (alertHistory (handleAlert d env s)) <= 100.
Proof.
  intros Hs. destruct (reachable_invariant s Hs) as [_ _ Hb _].
  unfold maxHistory in Hb. split; [exact Hb|].
  intros d env Hget. unfold handleAlert. rewrite Hget. simpl.
  rewrite bounded_unshift_cons by (unfold maxHistory; lia).
  unfold maxHistory.
  destruct (length (alertHistory s) =? 100)%nat eqn:E.
  - apply Nat.eqb_eq in E. rewrite E. simpl Nat.ltb.
    split; [reflexivity|]. simpl. rewrite removelast_length. lia.
  - apply Nat.eqb_neq in E.
    assert ((100 <? S (length (alertHistory s)))%nat = false) as ->
      by (apply Nat.ltb_ge; lia).
    split; [reflexivity|]. simpl. lia.
Qed.

End History.

(** ** The alert manager on the concrete plant *)

Section OnThePlant.
Import Js AlertManager Scenario.

Lemma after_breach_reachable : reachable after_breach.
Proof. apply reachable_step, reachable_init. Qed.





(** C7 on the plant: resolving a history-only identifier, and resolving
    the same alert twice. *)
Lemma resolveAlert_inactive_id_witness :
  resolveAlert "demo-2" "supervisor" (env 1) start = start /\
  resolveAlert "am-1" "operator" (env 3)
    (resolveAlert "am-1" "supervisor" (env 2) after_breach)
  = resolveAlert "am-1" "supervisor" (env 2) after_breach.
Proof.
  split.
  - destruct (resolveAlert_inactive_id start "demo-2" "supervisor" (env 1))
      as [H _].
    refine (proj1 (H _)). intros a [].
  - destruct (resolveAlert_inactive_id after_breach "am-1" "supervisor" (env 2))
      as [_ H].
    apply H; [exact after_breach_reachable|].
    change (NoDup ["am-1"]). apply NoDup_singleton.
Defined.

(** C8 on the plant. *)
Lemma history_capacity_witness : length (alertHistory after_breach) <= 100.
Proof. exact (proj1 (history_capacity after_breach after_breach_reachable)). Defined.


End OnThePlant.

(** ** The store: [addAlert] *)

Section StoreAlerts.
Import Js Store.

Lemma bounded_unshift_cases {A} (x : A) l :
  bounded_unshift 100 x l
  = if (100 <=? length l)%nat then x :: removelast l else x :: l.
Proof.
  rewrite bounded_unshift_cons by lia.
  destruct (100 <=? length l)%nat eqn:E.
  - apply Nat.leb_le in E.
    assert ((100 <? S (length l))%nat = true) as -> by (apply Nat.ltb_lt; lia).
    reflexivity.
  - apply Nat.leb_gt in E.
    assert ((100 <? S (length l))%nat = false) as -> by (apply Nat.ltb_ge; lia).
    reflexivity.
Qed.

(** C10. [addAlert] allocates one new object: the argument with [id] set
    to the drawn identifier, [timestamp] to the clock reading and
    [resolved] to [false], whatever the argument held in these fields,
    and every other field as in the argument. Its reference is pushed at
    the end of the active array and at the front of the history, whose
    last entry is dropped when it already held 100 or more; no older
    object changes; [kpis.activeAlerts] becomes the new length of the
    active array. *)
Theorem addAlert_stores (alert : Obj) (uuid : string) (now : Timestamp) (s : State) :
  let s' := addAlert alert uuid now s in
  let ref := length (alert_objects s) in
  exists stored : Obj,
    alert_objects s' = alert_objects s ++ [stored] /\
    alert_objects s' !! ref = Some stored /\
    stored !! "id" = Some (VStr uuid) /\
    stored !! "timestamp" = Some (VTime now) /\
    stored !! "resolved" = Some (VBool false) /\
    (forall f, f <> "id" -> f <> "timestamp" -> f <> "resolved" ->
       stored !! f = alert !! f) /\
    alerts_active s' = alerts_active s ++ [ref] /\
    alerts_history s'
    = (if (100 <=? length (alerts_history s))%nat
       then ref :: removelast (alerts_history s)
       else ref :: alerts_history s) /\
    length (alerts_history s') <= Nat.max 100 (length (alerts_history s)) /\
    kpis s' !! "activeAlerts"
    = Some (VNum (inject_Z (Z.of_nat (length (alerts_active s'))))) /\
    (forall f, f <> "activeAlerts" -> kpis s' !! f = kpis s !! f).
Proof.
  intros s' ref.
  exists (<[ "resolved" := VBool false ]>
            (<[ "timestamp" := VTime now ]> (<[ "id" := VStr uuid ]> alert))).
  unfold s', addAlert. simpl.
  split; [reflexivity|].
  split; [apply list_lookup_middle; reflexivity|].
  split; [by simplify_map_eq|].
  split; [by simplify_map_eq|].
  split; [by simplify_map_eq|].
  split; [intros f H1 H2 H3; by simplify_map_eq|].
  split; [reflexivity|].
  split; [apply bounded_unshift_cases|].
  split.
  { rewrite bounded_unshift_cases.
    destruct (100 <=? length (alerts_history s))%nat eqn:E; simpl.
    - apply Nat.leb_le in E. rewrite removelast_length. lia.
    - apply Nat.leb_gt in E. lia. }
  split; [by simplify_map_eq|].
  intros f Hf. by simplify_map_eq.
Qed.

End StoreAlerts.

(** ** The push transport: reconnect delays and exhaustion *)

Section Reconnect.
Import Js WebSocketService.

Lemma reconnectDelay_lt n m : 1 <= n -> n < m -> (reconnectDelay n < reconnectDelay m)%Q.
Proof.
  intros Hn Hm. unfold reconnectDelay, reconnectInterval.
  apply Qmult_lt_l; [reflexivity|].
  apply Qpower_lt_compat_l; [lia|reflexivity].
Qed.

(** C5. With the counter at [n - 1] for an attempt [n] from 1 to 10, a
    close that is not manual raises the counter to [n] and schedules
    exactly one reconnect, after [3000 * 1.5^(n-1)] milliseconds; these
    delays grow strictly with [n]. With the counter at the cap of 10, a
    close that is not manual dispatches [websocket:maxRetries], schedules
    nothing and leaves the counter at 10; nothing but an explicit
    [connect()] then builds a socket, since no timer is pending. From a
    fresh service with an unreachable server the ten delays are 3000,
    4500, 6750, ... and the eleventh close reports exhaustion. *)
Theorem reconnect_backoff :
  (forall n t s,
     1 <= n <= 10 -> currentRetries s = n - 1 -> isManualClose s = false ->
     exists s',
       onclose t s = (s', [SetTimeout (reconnectDelay n)]) /\
       currentRetries s' = n /\
       (reconnectDelay n == 3000 * (3 # 2) ^ (Z.of_nat n - 1))%Q) /\
  (forall n m, 1 <= n -> n < m -> m <= 10 ->
     (reconnectDelay n < reconnectDelay m)%Q) /\
  (forall t s,
     currentRetries s = 10 -> isManualClose s = false ->
     exists s',
       onclose t s = (s', [Dispatch "websocket:maxRetries"]) /\
       currentRetries s' = 10 /\ isManualClose s' = false /\
       (scheduleReconnect s').2 = []) /\
  (forall t store,
     List.map reduced (failingRounds 11 t (initial store)).2
     = [ SetTimeout 3000; SetTimeout 4500; SetTimeout 6750;
         SetTimeout 10125; SetTimeout (30375 # 2);
         SetTimeout (91125 # 4); SetTimeout (273375 # 8);
         SetTimeout (820125 # 16); SetTimeout (2460375 # 32);
         SetTimeout (7381125 # 64);
         Dispatch "websocket:maxRetries" ]).
Proof.
  split; [|split; [|split]].
  - intros n t [sock retries manual store] Hn Hr Hm. simpl in Hr, Hm. subst.
    unfold onclose. cbn [isManualClose currentRetries negb andb].
    assert ((n - 1 <? maxRetries)%nat = true) as ->
      by (apply Nat.ltb_lt; unfold maxRetries; lia).
    unfold scheduleReconnect. cbn [currentRetries].
    assert ((maxRetries <=? n - 1)%nat = false) as ->
      by (apply Nat.leb_gt; unfold maxRetries; lia).
    replace (S (n - 1)) with n by lia.
    eexists. split; [reflexivity|]. split; [reflexivity|].
    unfold reconnectDelay, reconnectInterval.
    assert (1.5 == 3 # 2)%Q as -> by reflexivity. reflexivity.
  - intros n m Hn Hnm _. apply reconnectDelay_lt; assumption.
  - intros t [sock retries manual store] Hr Hm. simpl in Hr, Hm. subst.
    eexists. split; [reflexivity|]. auto.
  - intros t store. vm_compute. reflexivity.
Qed.

End Reconnect.

(** ** The connection-mode selector *)

Section ModeSelector.
Import Js RealtimeMonitor.

Lemma updateMotor_same motorId data t st old :
  Store.motors st !! motorId = Some old ->
  Store.motors (Store.updateMotor motorId data t st) !! motorId
  = Some (<[ "lastUpdate" := VTime t ]> (spread old data)).
Proof.
  intros H. unfold Store.updateMotor. rewrite H. simpl. apply lookup_insert_eq.
Qed.

Lemma updateMotor_other motorId motorId' data t st :
  motorId <> motorId' ->
  Store.motors (Store.updateMotor motorId data t st) !! motorId'
  = Store.motors st !! motorId'.
Proof.
  intros H. unfold Store.updateMotor.
  destruct (Store.motors st !! motorId); [|reflexivity].
  simpl. apply lookup_insert_ne. exact H.
Qed.

Lemma updateState_motors section data st :
  Store.motors (Store.updateState section data st) = Store.motors st.
Proof.
  destruct section; reflexivity.
Qed.

Lemma updateSystemStatus_motors v st :
  Store.motors (Store.updateSystemStatus v st) = Store.motors st.
Proof.
  unfold Store.updateSystemStatus. destruct (negb _); reflexivity.
Qed.

(** No operation of the store removes the record of a motor. *)
Lemma store_operations_keep_motors st :
  has_motors st ->
  (forall section data, has_motors (Store.updateState section data st)) /\
  (forall v, has_motors (Store.updateSystemStatus v st)) /\
  (forall motorId data t, has_motors (Store.updateMotor motorId data t st)) /\
  (forall alert uuid t, has_motors (Store.addAlert alert uuid t st)) /\
  (forall alertId t, has_motors (Store.resolveAlert alertId t st)) /\
  has_motors (Store.clearAlerts st).
Proof.
  intros [H1 H2]. unfold has_motors. repeat split.
  - rewrite updateState_motors. exact H1.
  - rewrite updateState_motors. exact H2.
  - rewrite updateSystemStatus_motors. exact H1.
  - rewrite updateSystemStatus_motors. exact H2.
  - destruct (decide (motorId = "motor1")) as [->|Hne].
    + destruct H1 as [m Hm]. erewrite updateMotor_same by exact Hm. eauto.
    + rewrite updateMotor_other by exact Hne. exact H1.
  - destruct (decide (motorId = "motor2")) as [->|Hne].
    + destruct H2 as [m Hm]. erewrite updateMotor_same by exact Hm. eauto.
    + rewrite updateMotor_other by exact Hne. exact H2.
  - exact H1.
  - exact H2.
  - unfold Store.resolveAlert. destruct (Store.findIndex _ _); [|exact H1].
    destruct (Store.alerts_active st !! _); exact H1.
  - unfold Store.resolveAlert. destruct (Store.findIndex _ _); [|exact H2].
    destruct (Store.alerts_active st !! _); exact H2.
  - exact H1.
  - exact H2.
Qed.

Lemma useSimulatedData_simulated t d s :
  has_motors (stateStore s) ->
  simulated (stateStore (useSimulatedData t d s)) "motor1" /\
  simulated (stateStore (useSimulatedData t d s)) "motor2".
Proof.
  intros [[m1 H1] [m2 H2]]. unfold useSimulatedData, simulated. simpl.
  rewrite !updateSystemStatus_motors. split.
  - rewrite updateMotor_other by discriminate.
    erewrite updateMotor_same by exact H1.
    eexists. split; [reflexivity|].
    rewrite lookup_insert_ne by discriminate. unfold spread.
    apply lookup_union_Some_l. by simplify_map_eq.
  - erewrite updateMotor_same
      by (rewrite updateMotor_other by discriminate; exact H2).
    eexists. split; [reflexivity|].
    rewrite lookup_insert_ne by discriminate. unfold spread.
    apply lookup_union_Some_l. by simplify_map_eq.
Qed.

Lemma useSimulatedData_has_motors t d s :
  has_motors (stateStore s) -> has_motors (stateStore (useSimulatedData t d s)).
Proof.
  intros H. destruct (useSimulatedData_simulated t d s H)
    as [(m1 & H1 & _) (m2 & H2 & _)].
  split; eauto.
Qed.

Lemma activateOfflineMode_spec t d s :
  mode (activateOfflineMode t d s) = Offline /\
  recoveryTimers (activateOfflineMode t d s) = recoveryTimers s ++ [(t + 30000)%Z] /\
  pollingRetries (activateOfflineMode t d s) = pollingRetries s /\
  (has_motors (stateStore s) ->
   simulated (stateStore (activateOfflineMode t d s)) "motor1" /\
   simulated (stateStore (activateOfflineMode t d s)) "motor2").
Proof.
  split; [reflexivity|]. split; [reflexivity|]. split; [reflexivity|].
  intros Hm. unfold activateOfflineMode.
  change (stateStore (scheduleRecoveryAttempt t ?x)) with (stateStore x).
  apply useSimulatedData_simulated. destruct Hm as [H1 H2].
  split; simpl; try rewrite updateState_motors; assumption.
Qed.

Lemma updateState_has_motors section data s :
  has_motors (stateStore s) ->
  has_motors (stateStore (with_store (Store.updateState section data) s)).
Proof.
  intros [H1 H2]. unfold has_motors. simpl. rewrite updateState_motors. auto.
Qed.

Lemma handlePollingError_spec msg t d s :
  let s' := handlePollingError msg t d s in
  pollingRetries s' = pollingRetries s /\
  (3 <= pollingRetries s ->
   mode s' = Offline /\
   recoveryTimers s' = recoveryTimers s ++ [(t + 30000)%Z] /\
   (has_motors (stateStore s) ->
    simulated (stateStore s') "motor1" /\ simulated (stateStore s') "motor2")) /\
  (pollingRetries s < 3 -> mode s' = mode s /\ recoveryTimers s' = recoveryTimers s) /\
  (has_motors (stateStore s) -> has_motors (stateStore s')).
Proof.
  intros s'. subst s'. unfold handlePollingError, maxPollingRetries.
  set (s1 := with_store _ s).
  assert (has_motors (stateStore s) -> has_motors (stateStore s1)) as Hpres
    by apply updateState_has_motors.
  change (pollingRetries s1) with (pollingRetries s).
  destruct (3 <=? pollingRetries s)%nat eqn:E.
  - apply Nat.leb_le in E.
    destruct (activateOfflineMode_spec t d s1) as (Hm & Ht & Hr & Hs).
    split; [exact Hr|]. split; [|split; [lia|]].
    + intros _. split; [exact Hm|]. split; [exact Ht|]. intros H. auto.
    + intros H. destruct (Hs (Hpres H)) as [(m1 & H1 & _) (m2 & H2 & _)].
      split; eauto.
  - apply Nat.leb_gt in E. split; [reflexivity|]. split; [lia|].
    split; [auto|]. exact Hpres.
Qed.

Lemma cycleFailed_spec msg t d s :
  let s' := cycleFailed msg t d s in
  pollingRetries s' = S (pollingRetries s) /\
  isPollingActive s' = false /\
  (2 <= pollingRetries s ->
   mode s' = Offline /\ In (t + 30000)%Z (recoveryTimers s') /\
   (has_motors (stateStore s) ->
    simulated (stateStore s') "motor1" /\ simulated (stateStore s') "motor2")) /\
  (pollingRetries s < 2 -> mode s' = mode s) /\
  (has_motors (stateStore s) -> has_motors (stateStore s')).
Proof.
  intros s'. subst s'. unfold cycleFailed.
  set (s3 := set_pollingRetries _ _).
  destruct (handlePollingError_spec msg t d s3) as (Hr & Hoff & Hsame & Hm).
  change (pollingRetries s3) with (S (pollingRetries s)) in *.
  change (mode s3) with (mode s) in *.
  change (stateStore s3) with (stateStore s) in *.
  set (s4 := handlePollingError msg t d s3) in *.
  change (pollingRetries (set_isPollingActive false s4)) with (pollingRetries s4).
  change (mode (set_isPollingActive false s4)) with (mode s4).
  change (stateStore (set_isPollingActive false s4)) with (stateStore s4).
  change (recoveryTimers (set_isPollingActive false s4)) with (recoveryTimers s4).
  split; [exact Hr|]. split; [reflexivity|]. split; [|split].
  - intros H. destruct Hoff as (H1 & H2 & H3); [lia|].
    split; [exact H1|]. split; [|exact H3].
    rewrite H2. apply in_or_app. right. left. reflexivity.
  - intros H. apply Hsame. lia.
  - exact Hm.
Qed.

Lemma cycleFailed_mode msg t d s :
  mode (cycleFailed msg t d s)
  = if (maxPollingRetries <=? S (pollingRetries s))%nat then Offline else mode s.
Proof.
  destruct (cycleFailed_spec msg t d s) as (_ & _ & Hoff & Hsame & _).
  unfold maxPollingRetries.
  destruct (3 <=? S (pollingRetries s))%nat eqn:E.
  - apply Nat.leb_le in E. apply Hoff. lia.
  - apply Nat.leb_gt in E. apply Hsame. lia.
Qed.

Lemma step_mode cfg s te s' :
  step cfg s te = Some s' -> mode s' = transition (mode s) (signal s te).
Proof.
  destruct te as [t e]. destruct e; simpl.
  - destruct (started s); [discriminate|]. intros [= <-]. reflexivity.
  - destruct (started s); [|discriminate]. intros [= <-]. reflexivity.
  - destruct (started s); [|discriminate]. intros [= <-]. reflexivity.
  - destruct (started s); [|discriminate]. intros [= <-]. reflexivity.
  - destruct (started s); [|discriminate]. intros [= <-].
    unfold checkConnectionHealth.
    destruct (lastUpdate_ms _) as [u|]; [|reflexivity].
    destruct (30 * 1000 <? t - u)%Z; [|reflexivity].
    rewrite andb_true_l. case_bool_decide as Em.
    + rewrite Em. reflexivity.
    + simpl. destruct (mode s); congruence.
  - destruct (pollingInterval s); [|discriminate].
    intros [= <-]. unfold pollingTick.
    destruct (bool_decide (mode s = Polling)) eqn:Em; [|reflexivity].
    destruct (isPollingActive s) eqn:Ea; [reflexivity|]. cbn [andb negb].
    unfold executePollingCycle. rewrite Ea.
    destruct hasToken; cbn [andb negb]; [reflexivity|].
    rewrite cycleFailed_mode.
    cbn [pollingRetries mode set_metrics set_isPollingActive].
    destruct (pollingRetries s) as [|[|n]]; reflexivity.
  - destruct (cyclesInFlight s !! i); simpl; [|discriminate].
    intros [= <-]. reflexivity.
  - destruct (cyclesInFlight s !! i); simpl; [|discriminate].
    intros [= <-]. rewrite cycleFailed_mode.
    cbn [pollingRetries mode set_cyclesInFlight].
    destruct (pollingRetries s) as [|[|n]]; reflexivity.
  - destruct (recoveryTimers s !! i) as [due|]; simpl; [|discriminate].
    destruct (due <=? t)%Z; [|discriminate].
    intros [= <-]. unfold recoveryAttempt.
    change (mode (set_recoveryTimers ?l s)) with (mode s).
    destruct (decide (mode s = Offline)) as [Em|Em].
    + rewrite Em. reflexivity.
    + simpl. destruct (mode s); congruence.
  - intros [= <-]. reflexivity.
Qed.

(** The three rows of the table quoted in the specification. *)
Example transition_rows :
  transition Websocket SigDisconnected = Polling /\
  transition Polling SigPollingExhausted = Offline /\
  transition Offline SigRecoveryElapsed = Polling.
Proof. repeat split. Qed.

(** The monitor keeps two failure counters. The recovery callback clears
    [pollingRetries], the one the threshold of three tests, and leaves
    [connectionState.errors] as it is; that one is cleared by a successful
    cycle and by [websocket:connected]. *)
Remark recoveryAttempt_counters s :
  mode s = Offline ->
  pollingRetries (recoveryAttempt s) = 0 /\
  errors (recoveryAttempt s) = errors s.
Proof.
  intros H. unfold recoveryAttempt. rewrite H. split; reflexivity.
Qed.


End ModeSelector.

(** ** The polling loop: the in-flight flag *)

Section PollingLoop.
Import Js RealtimeMonitor.

(** A tick does nothing unless the mode is polling and the flag is
    clear. *)
Lemma pollingTick_guard hasToken t d s :
  mode s <> Polling \/ isPollingActive s = true ->
  pollingTick hasToken t d s = s.
Proof.
  intros [H|H]; unfold pollingTick.
  - rewrite bool_decide_eq_false_2 by exact H. reflexivity.
  - rewrite H, andb_false_r. reflexivity.
Qed.

(** A cycle that suspends on [fetch] has set the flag. *)
Lemma executePollingCycle_sets_flag t d s :
  isPollingActive s = false ->
  isPollingActive (executePollingCycle true t d s) = true /\
  cyclesInFlight (executePollingCycle true t d s) = cyclesInFlight s ++ [t].
Proof.
  intros H. unfold executePollingCycle. rewrite H. split; reflexivity.
Qed.

(** Both ways out of a cycle clear the flag. *)
Lemma cycle_exit_clears_flag cfg apiData startTime msg t d s :
  isPollingActive (cycleSucceeded cfg apiData startTime t s) = false /\
  isPollingActive (cycleFailed msg t d s) = false.
Proof. split; reflexivity. Qed.

(** The flag is also cleared, whatever is in flight, by the two helpers
    called from the connection listeners, the health check and the
    recovery timer. *)
Lemma resume_clears_flag s :
  isPollingActive (resumePolling s) = false /\
  cyclesInFlight (resumePolling s) = cyclesInFlight s /\
  isPollingActive (pausePolling s) = false /\
  cyclesInFlight (pausePolling s) = cyclesInFlight s.
Proof. repeat split. Qed.

Lemma cycleFailed_cyclesInFlight msg t d s :
  cyclesInFlight (cycleFailed msg t d s) = cyclesInFlight s.
Proof.
  unfold cycleFailed, handlePollingError.
  destruct (maxPollingRetries <=? _)%nat; reflexivity.
Qed.

(** Left alone, the flag does its job: a turn that is not one of the
    outside clearings keeps at most one cycle in flight. *)
Lemma step_single_flight cfg s te s' :
  single_flight s -> clears_flag s te = false ->
  step cfg s te = Some s' -> single_flight s'.
Proof.
  intros Hsf Hcl. destruct te as [t e]. destruct e; simpl in Hcl |- *;
    try discriminate.
  - destruct (started s); [discriminate|]. intros [= <-]. exact Hsf.
  - destruct (started s); [|discriminate]. intros [= <-]. exact Hsf.
  - destruct (started s); [|discriminate]. intros [= <-].
    unfold checkConnectionHealth.
    destruct (lastUpdate_ms _) as [u|]; [|exact Hsf].
    destruct (30 * 1000 <? t - u)%Z; [|exact Hsf].
    rewrite Hcl. exact Hsf.
  - destruct (pollingInterval s); [|discriminate]. intros [= <-].
    unfold pollingTick.
    destruct (bool_decide (mode s = Polling)); [|exact Hsf].
    destruct (isPollingActive s) eqn:Ea; [exact Hsf|]. cbn [andb negb].
    unfold executePollingCycle. rewrite Ea.
    unfold single_flight in Hsf.
    destruct (cyclesInFlight s) as [|x [|y l]] eqn:Ec; try congruence; try tauto.
    destruct hasToken; cbn [negb].
    + unfold single_flight. simpl. rewrite Ec. reflexivity.
    + unfold single_flight. rewrite cycleFailed_cyclesInFlight.
      simpl. rewrite Ec. exact I.
  - unfold single_flight in Hsf.
    destruct (cyclesInFlight s) as [|x [|y l]] eqn:Ec; try tauto.
    + rewrite lookup_nil. discriminate.
    + destruct i as [|i]; simpl; [|discriminate].
      intros [= <-]. exact I.
  - unfold single_flight in Hsf.
    destruct (cyclesInFlight s) as [|x [|y l]] eqn:Ec; try tauto.
    + rewrite lookup_nil. discriminate.
    + destruct i as [|i]; simpl; [|discriminate].
      intros [= <-]. unfold single_flight.
      rewrite cycleFailed_cyclesInFlight. exact I.
  - destruct (recoveryTimers s !! i) as [due|]; simpl; [|discriminate].
    destruct (due <=? t)%Z; [|discriminate].
    intros [= <-]. unfold recoveryAttempt.
    change (mode (set_recoveryTimers ?l s)) with (mode s).
    apply bool_decide_eq_false in Hcl.
    destruct (decide (mode s = Offline)); [contradiction|exact Hsf].
Qed.

Lemma run_undisturbed_single_flight cfg trace s s' :
  single_flight s -> run_undisturbed cfg s trace = Some s' -> single_flight s'.
Proof.
  revert s. induction trace as [|te rest IH]; intros s Hsf; simpl.
  - intros [= <-]. exact Hsf.
  - destruct (clears_flag s te) eqn:Hcl; [discriminate|].
    destruct (step cfg s te) as [s1|] eqn:Hstep; [|discriminate]. simpl.
    apply IH. eapply step_single_flight; eassumption.
Qed.

(** C9 at the failing input. Along the trace [outage], whose clock never
    goes back and whose every event can be delivered, the cycle begun at
    50 s is still suspended when the tick at 55 s begins another one: two
    polling cycles are in flight at once. The shorter trace
    [reconnect_storm] ends the same way. *)
Theorem polling_cycles_overlap :
  Scenario.chronological Scenario.outage = true /\
  (cyclesInFlight <$>
     run Scenario.config (initial Store.initialState) Scenario.outage)
  = Some [50000; 55000]%Z /\
  (mode <$> run Scenario.config (initial Store.initialState) Scenario.outage)
  = Some Polling /\
  (cyclesInFlight <$>
     run Scenario.config (initial Store.initialState) Scenario.reconnect_storm)
  = Some [5000; 10000]%Z.
Proof. repeat split; vm_compute; reflexivity. Qed.

End PollingLoop.

(** ** The monitor and the push transport on the concrete plant *)


(** C5 on the plant: the third attempt waits 6750 ms, the second less
    than the third, and a close at the cap reports exhaustion. *)
Lemma reconnect_backoff_witness :
  (exists s',
     WebSocketService.onclose 0
       (WebSocketService.mkState (Some WebSocketService.CONNECTING) 2 false
          Store.initialState)
     = (s', [WebSocketService.SetTimeout (WebSocketService.reconnectDelay 3)]) /\
     (WebSocketService.reconnectDelay 3 == 6750)%Q) /\
  (WebSocketService.reconnectDelay 2 < WebSocketService.reconnectDelay 3)%Q /\
  (exists s',
     WebSocketService.onclose 0
       (WebSocketService.mkState (Some WebSocketService.CONNECTING) 10 false
          Store.initialState)
     = (s', [WebSocketService.Dispatch "websocket:maxRetries"])).
Proof.
  destruct reconnect_backoff as (Hdelay & Hmono & Hcap & _).
  split; [|split].
  - destruct (Hdelay 3 0%Z
                (WebSocketService.mkState (Some WebSocketService.CONNECTING) 2 false
                   Store.initialState)) as (s' & Hs & _ & Hq);
      [lia|reflexivity|reflexivity|].
    exists s'. split; [exact Hs|]. rewrite Hq. reflexivity.
  - apply Hmono; lia.
  - destruct (Hcap 0%Z
                (WebSocketService.mkState (Some WebSocketService.CONNECTING) 10 false
                   Store.initialState)) as (s' & Hs & _);
      [reflexivity|reflexivity|].
    exists s'. exact Hs.
Defined.

(** * Further properties of the code *)

(** ** The store: alert references *)

Section StoreReferences.
Import Js Store StoreRuns.

Lemma removelast_take {A} (l : list A) : removelast l = take (pred (length l)) l.
Proof. apply List.removelast_firstn_len. Qed.

Lemma findIndex_none {A} (p : A -> bool) l :
  Forall (fun x => p x = false) l -> findIndex p l = None.
Proof.
  induction 1 as [|x l Hx _ IH]; [reflexivity|].
  simpl. rewrite Hx, IH. reflexivity.
Qed.

Lemma findIndex_last {A} (p : A -> bool) l x :
  Forall (fun y => p y = false) l -> p x = true ->
  findIndex p (l ++ [x]) = Some (length l).
Proof.
  intros Hl Hx. induction Hl as [|y l Hy _ IH]; simpl.
  - rewrite Hx. reflexivity.
  - rewrite Hy, IH. reflexivity.
Qed.

Lemma findIndex_lookup {A} (p : A -> bool) l i :
  findIndex p l = Some i -> exists x, l !! i = Some x /\ p x = true.
Proof.
  revert i. induction l as [|y l IH]; intros i; simpl; [discriminate|].
  destruct (p y) eqn:Hy.
  - intros [= <-]. eauto.
  - destruct (findIndex p l) as [j|]; simpl; [|discriminate].
    intros [= <-]. apply IH. reflexivity.
Qed.

Lemma has_id_grow objs o alertId r :
  r < length objs -> has_id (objs ++ [o]) alertId r = has_id objs alertId r.
Proof. intros H. unfold has_id. rewrite lookup_app_l by exact H. reflexivity. Qed.






Lemma addAlert_resolveAlert_state alert uuid t t' s :
  let new : Obj :=
    <[ "resolved" := VBool false ]>
      (<[ "timestamp" := VTime t ]> (<[ "id" := VStr uuid ]> alert)) in
  let f := fun o : Obj =>
    <[ "resolvedAt" := VTime t' ]> (<[ "resolved" := VBool true ]> o) in
  let s1 := addAlert alert uuid t s in
  let s2 := resolveAlert uuid t' s1 in
  alerts_ok s -> id_unused uuid s ->
  alert_objects s2
  = alter f (length (alert_objects s)) (alert_objects s ++ [new]) /\
  alerts_active s2 = alerts_active s /\
  alerts_history s2 = alerts_history s1 /\
  kpis s2
  = <[ "activeAlerts" := VNum (inject_Z (Z.of_nat (length (alerts_active s)))) ]>
      (kpis s1).
Proof.
  intros new f s1 s2 [Ha _ _ _ _] Hun.
  set (ref := length (alert_objects s)).
  assert (alert_objects s1 = alert_objects s ++ [new]) as Hobjs by reflexivity.
  assert (alerts_active s1 = alerts_active s ++ [ref]) as Hact by reflexivity.
  assert (findIndex (has_id (alert_objects s1) uuid) (alerts_active s1)
          = Some (length (alerts_active s))) as Hfind.
  { rewrite Hobjs, Hact. apply findIndex_last.
    - apply Forall_forall. intros r Hr.
      rewrite has_id_grow by exact (proj1 (Forall_forall _ _) Ha _ Hr).
      exact (proj1 (Forall_forall _ _) Hun _ Hr).
    - unfold has_id. rewrite list_lookup_middle by reflexivity.
      unfold field, new. simplify_map_eq. apply String.eqb_refl. }
  assert (alerts_active s1 !! length (alerts_active s) = Some ref) as Hlook
    by (rewrite Hact; apply list_lookup_middle; reflexivity).
  assert (delete (length (alerts_active s)) (alerts_active s1) = alerts_active s) as Hdel.
  { rewrite Hact. rewrite (delete_middle (alerts_active s) [] ref).
    apply app_nil_r. }
  assert (alert_objects s2 = alter f ref (alert_objects s1) /\
          alerts_active s2 = delete (length (alerts_active s)) (alerts_active s1) /\
          alerts_history s2 = alerts_history s1 /\
          kpis s2 = <[ "activeAlerts" :=
                       VNum (inject_Z (Z.of_nat
                         (length (delete (length (alerts_active s)) (alerts_active s1))))) ]>
                      (kpis s1)) as (Ho2 & Ha2 & Hh2 & Hk2).
  { unfold s2, resolveAlert. rewrite Hfind, Hlook. repeat split. }
  split; [rewrite Ho2, Hobjs; reflexivity|].
  split; [rewrite Ha2; exact Hdel|]. split; [exact Hh2|].
  rewrite Hk2, Hdel. reflexivity.
Qed.


(** X3. Resolving an identifier that no active alert carries changes
    nothing in the store. That is the case of every identifier once
    [clearAlerts] has run, and of the identifier of an alert that was
    added and then resolved: a second resolution is a no-op. *)
Theorem resolveAlert_unknown_id alertId t s :
  (id_unused alertId s -> resolveAlert alertId t s = s) /\
  resolveAlert alertId t (clearAlerts s) = clearAlerts s /\
  (forall alert t1 t2,
     alerts_ok s -> id_unused alertId s ->
     let s2 := resolveAlert alertId t2 (addAlert alert alertId t1 s) in
     resolveAlert alertId t s2 = s2).
Proof.
  assert (forall s0, id_unused alertId s0 -> resolveAlert alertId t s0 = s0) as Hnoop.
  { intros s0 Hun. unfold resolveAlert. rewrite findIndex_none; [reflexivity|].
    exact Hun. }
  split; [apply Hnoop|]. split; [apply Hnoop; constructor|].
  intros alert t1 t2 Hok Hun s2. apply Hnoop.
  destruct (addAlert_resolveAlert_state alert alertId t1 t2 s Hok Hun)
    as (Hobjs & Hact & _ & _).
  fold s2 in Hact, Hobjs. unfold id_unused. rewrite Hact.
  apply Forall_forall. intros r Hr.
  pose proof (proj1 (Forall_forall _ _) (ok_active s Hok) _ Hr) as Hlt.
  pose proof (proj1 (Forall_forall _ _) Hun _ Hr) as Hid.
  unfold has_id in *. rewrite Hobjs.
  rewrite list_lookup_alter_ne by lia.
  rewrite lookup_app_l by exact Hlt. exact Hid.
Qed.

End StoreReferences.

(** ** The store: motors and subscribers *)

Section StoreMotors.
Import Js Store StoreRuns.


Lemma remove_first_count x y l :
  count_occ Nat.eq_dec (remove_first x l) y
  = if Nat.eq_dec x y then pred (count_occ Nat.eq_dec l y)
    else count_occ Nat.eq_dec l y.
Proof.
  induction l as [|z l IH]; simpl.
  - destruct (Nat.eq_dec x y); reflexivity.
  - destruct (Nat.eqb z x) eqn:E.
    + apply Nat.eqb_eq in E. subst z.
      destruct (Nat.eq_dec x y); reflexivity.
    + apply Nat.eqb_neq in E. simpl.
      destruct (Nat.eq_dec z y) as [->|Hzy].
      * rewrite IH. destruct (Nat.eq_dec x y); [congruence|reflexivity].
      * exact IH.
Qed.

Lemma remove_first_absent x l : ~ In x l -> remove_first x l = l.
Proof.
  induction l as [|z l IH]; simpl; [reflexivity|].
  intros H. destruct (Nat.eqb z x) eqn:E.
  - apply Nat.eqb_eq in E. tauto.
  - f_equal. apply IH. tauto.
Qed.

Lemma remove_first_last x l : ~ In x l -> remove_first x (l ++ [x]) = l.
Proof.
  induction l as [|z l IH]; simpl.
  - rewrite Nat.eqb_refl. reflexivity.
  - intros H. destruct (Nat.eqb z x) eqn:E.
    + apply Nat.eqb_eq in E. tauto.
    + f_equal. apply IH. tauto.
Qed.

(** X5. Subscribing a callback that the section does not have yet and
    then calling the returned function leaves the callbacks of the
    section as they were. In general the returned function removes one
    registration of the callback, the oldest, so a second call removes
    another registration of the same callback when there is one, and
    does nothing when there is none; registrations of other callbacks
    and of other sections are never affected. *)
Theorem subscribe_unsubscribe section callback subs :
  (~ In callback (callbacks subs section) ->
   callbacks (unsubscribe section callback (subscribe section callback subs)) section
   = callbacks subs section) /\
  (forall other,
     count_occ Nat.eq_dec (callbacks (unsubscribe section callback subs) section) other
     = if Nat.eq_dec callback other
       then pred (count_occ Nat.eq_dec (callbacks subs section) other)
       else count_occ Nat.eq_dec (callbacks subs section) other) /\
  (~ In callback (callbacks subs section) ->
   callbacks (unsubscribe section callback subs) section = callbacks subs section) /\
  (forall section', section' <> section ->
     callbacks (unsubscribe section callback subs) section' = callbacks subs section' /\
     callbacks (subscribe section callback subs) section' = callbacks subs section').
Proof.
  unfold callbacks, unsubscribe, subscribe. split; [|split; [|split]].
  - intros Hnew. rewrite lookup_insert_eq. rewrite lookup_insert_eq. simpl.
    apply remove_first_last. exact Hnew.
  - intros other. destruct (subs !! section) as [l|] eqn:E.
    + rewrite lookup_insert_eq. simpl. apply remove_first_count.
    + rewrite E. simpl. destruct (Nat.eq_dec callback other); reflexivity.
  - intros Habs. destruct (subs !! section) as [l|] eqn:E.
    + rewrite lookup_insert_eq. simpl. simpl in Habs.
      apply remove_first_absent. exact Habs.
    + rewrite E. reflexivity.
  - intros section' Hne. split.
    + destruct (subs !! section); [|reflexivity].
      rewrite lookup_insert_ne by congruence. reflexivity.
    + rewrite lookup_insert_ne by congruence. reflexivity.
Qed.

End StoreMotors.

(** ** The alert manager: batch checks *)

Section BatchChecks.
Import Js AlertManager AlertViews.

Lemma run_app s es1 es2 : run (run s es1) es2 = run s (es1 ++ es2).
Proof. unfold run. symmetry. apply fold_left_app. Qed.

Lemma checkMotor_is_run motorId variables motorData envOf s :
  checkMotor motorId variables motorData envOf s
  = run s (motorEvents motorId variables motorData envOf).
Proof.
  revert s. induction variables as [|v vs IH]; intros s; [reflexivity|].
  unfold checkMotor, motorEvents in *. simpl.
  destruct (motorData !! v_key v) as [value|]; simpl; apply IH.
Qed.

Lemma checkMotorAlerts_is_run MOTORS motorsData envOf s :
  checkMotorAlerts MOTORS motorsData envOf s
  = run s (batchEvents MOTORS motorsData envOf).
Proof.
  revert s. induction motorsData as [|[motorId motorData] rest IH]; intros s;
    [reflexivity|].
  unfold checkMotorAlerts, batchEvents in *. simpl.
  rewrite <- run_app. rewrite IH.
  destruct (findMotor MOTORS motorId) as [m|]; [|reflexivity].
  rewrite checkMotor_is_run. reflexivity.
Qed.

(** X6. [checkMotorAlerts] is the sequence of [checkThreshold] calls for
    the configured variables with a defined reading, motor by motor, so
    it takes a reachable state of the manager to a reachable state (and
    with it keeps the keys of the active map distinct and the history
    within 100); a snapshot none of whose motors is configured, or whose
    configured motors define none of their variables, leaves the manager
    as it was. *)
Theorem checkMotorAlerts_batch MOTORS motorsData envOf s :
  checkMotorAlerts MOTORS motorsData envOf s
  = run s (batchEvents MOTORS motorsData envOf) /\
  (reachable s ->
   reachable (checkMotorAlerts MOTORS motorsData envOf s) /\
   NoDup (List.map fst (activeAlerts (checkMotorAlerts MOTORS motorsData envOf s))) /\
   length (alertHistory (checkMotorAlerts MOTORS motorsData envOf s)) <= 100) /\
  ((forall motorId motorData,
      In (motorId, motorData) motorsData ->
      match findMotor MOTORS motorId with
      | None => True
      | Some m => forall v, In v (m_variables m) -> motorData !! v_key v = None
      end) ->
   checkMotorAlerts MOTORS motorsData envOf s = s).
Proof.
  split; [apply checkMotorAlerts_is_run|]. split.
  - intros Hs. rewrite checkMotorAlerts_is_run.
    pose proof (reachable_run s (batchEvents MOTORS motorsData envOf) Hs) as Hr.
    split; [exact Hr|].
    destruct (reachable_invariant _ Hr) as [Hnd _ Hb _].
    split; [exact Hnd|exact Hb].
  - intros Hnone. rewrite checkMotorAlerts_is_run.
    assert (batchEvents MOTORS motorsData envOf = []) as ->; [|reflexivity].
    unfold batchEvents. induction motorsData as [|[motorId motorData] rest IH];
      [reflexivity|].
    simpl. rewrite IH by (intros; eapply Hnone; right; eassumption).
    rewrite app_nil_r.
    pose proof (Hnone motorId motorData (or_introl eq_refl)) as H.
    destruct (findMotor MOTORS motorId) as [m|]; [|reflexivity].
    unfold motorEvents. induction (m_variables m) as [|v vs IHv]; [reflexivity|].
    simpl. rewrite (H v (or_introl eq_refl)). simpl.
    apply IHv. intros v' Hv'. apply H. right. exact Hv'.
Qed.

End BatchChecks.

(** ** The alert manager: statistics, clearing, filters and badge *)

Section Views.
Import Js AlertManager AlertViews.

Lemma update_first_Forall {A} (P : A -> Prop) p f (l : list A) :
  (forall x, P x -> P (f x)) -> Forall P l -> Forall P (update_first p f l).
Proof.
  intros Hf. induction 1 as [|x l Hx Hl IH]; simpl; [constructor|].
  destruct (p x); constructor; auto.
Qed.

Lemma removelast_Forall {A} (P : A -> Prop) (l : list A) :
  Forall P l -> Forall P (removelast l).
Proof. intros H. rewrite removelast_take. apply Forall_take. exact H. Qed.

Lemma filter_Forall {A} (P : A -> Prop) q (l : list A) :
  Forall P l -> Forall P (List.filter q l).
Proof.
  induction 1 as [|x l Hx Hl IH]; simpl; [constructor|].
  destruct (q x); [constructor|]; assumption.
Qed.

Lemma severities_ok_handleAlert d env s :
  d_severity d <> Normal -> severities_ok s -> severities_ok (handleAlert d env s).
Proof.
  intros Hd [Hh Ha]. unfold handleAlert, severities_ok.
  destruct (map_get (d_key d) (activeAlerts s)) as [a|] eqn:Hget; simpl.
  - split; [exact Hh|]. apply Forall_forall. intros x Hx.
    apply list_elem_of_In in Hx. unfold map_values in Hx.
    apply List.in_map_iff in Hx as (p & <- & Hp).
    apply map_set_In in Hp as [->|Hp]; [exact Hd|].
    apply (proj1 (Forall_forall _ _) Ha). apply list_elem_of_In.
    unfold map_values. apply List.in_map. exact Hp.
  - split.
    + rewrite bounded_unshift_cons by (unfold maxHistory; lia).
      constructor; [exact Hd|].
      destruct (_ <? _)%nat; [apply removelast_Forall|]; exact Hh.
    + rewrite map_set_absent by exact Hget. unfold map_values.
      rewrite List.map_app. apply Forall_app. split; [exact Ha|].
      constructor; [exact Hd|constructor].
Qed.

Lemma severities_ok_resolveAlertByKey key env s :
  severities_ok s -> severities_ok (resolveAlertByKey key env s).
Proof.
  intros [Hh Ha]. unfold resolveAlertByKey.
  destruct (map_get key (activeAlerts s)); [|split; assumption].
  split; simpl.
  - apply update_first_Forall; [|exact Hh]. intros x Hx. exact Hx.
  - unfold map_values, map_delete. apply Forall_forall. intros x Hx.
    apply list_elem_of_In, List.in_map_iff in Hx as (p & <- & Hp).
    apply List.filter_In in Hp as [Hp _].
    apply (proj1 (Forall_forall _ _) Ha). apply list_elem_of_In.
    unfold map_values. apply List.in_map. exact Hp.
Qed.

Lemma severities_ok_step s e : severities_ok s -> severities_ok (step s e).
Proof.
  intros Hok. destruct e; simpl.
  - unfold checkThreshold. destruct (within_hysteresis _ _ _); [exact Hok|].
    destruct (evaluate motorId variable value) as [sev msg].
    destruct (negb (bool_decide (sev = Normal))) eqn:Hsev; simpl.
    + destruct (negb (String.eqb msg "")).
      * apply severities_ok_handleAlert; [|exact Hok].
        apply negb_true_iff, bool_decide_eq_false in Hsev. exact Hsev.
      * destruct (map_has _ _); [apply severities_ok_resolveAlertByKey|]; exact Hok.
    + destruct (map_has _ _); [apply severities_ok_resolveAlertByKey|]; exact Hok.
  - unfold resolveAlert. destruct (List.find _ _); [|exact Hok].
    apply severities_ok_resolveAlertByKey. exact Hok.
  - destruct Hok as [Hh Ha]. split; [|exact Ha]. simpl.
    apply filter_Forall. exact Hh.
  - split; constructor.
  - exact Hok.
Qed.

Lemma reachable_severities_ok s : reachable s -> severities_ok s.
Proof.
  induction 1 as [t store|s e _ IH].
  - split; simpl; [|constructor].
    repeat constructor; discriminate.
  - apply severities_ok_step. exact IH.
Qed.

Lemma countSeverity_split l :
  Forall (fun a => a_severity a <> Normal) l ->
  countSeverity "critical" l + countSeverity "warning" l = length l /\
  countSeverity "info" l = 0.
Proof.
  unfold countSeverity. induction 1 as [|a l Ha Hl [IH1 IH2]]; simpl; [auto|].
  destruct (a_severity a); simpl; try congruence; split; try lia; exact IH2.
Qed.

(** X7. In every reachable state of the manager each record of the
    history and each active alert is critical or warning, never normal;
    so in the statistics the critical and the warning counts add up to
    the size of the history, the info count is 0, and the resolved count
    is at most the size of the history. *)
Theorem getStats_accounts s :
  reachable s ->
  severities_ok s /\
  st_critical (getStats s) + st_warning (getStats s) = st_totalHistory (getStats s) /\
  st_info (getStats s) = 0 /\
  st_resolved (getStats s) <= st_totalHistory (getStats s) /\
  st_totalHistory (getStats s) <= 100.
Proof.
  intros Hs. pose proof (reachable_severities_ok s Hs) as Hok.
  split; [exact Hok|]. destruct Hok as [Hh _].
  destruct (countSeverity_split _ Hh) as [H1 H2].
  destruct (reachable_invariant s Hs) as [_ _ Hb _].
  simpl. repeat split; try assumption.
  apply List.filter_length_le.
Qed.

Lemma filter_filter_same {A} (q : A -> bool) l :
  List.filter q (List.filter q l) = List.filter q l.
Proof.
  induction l as [|x l IH]; [reflexivity|]. simpl.
  destruct (q x) eqn:E; simpl; [rewrite E, IH|]; auto.
Qed.

Lemma filter_none {A} (q : A -> bool) l :
  (forall x, In x l -> q x = false) -> List.filter q l = [].
Proof.
  induction l as [|x l IH]; [reflexivity|]. simpl. intros H.
  rewrite (H x (or_introl eq_refl)). apply IH. intros; apply H; auto.
Qed.

(** X8. [clearResolvedAlerts] keeps exactly the unresolved records, in
    their order, and touches nothing else; after it the resolved count
    of the statistics is 0 and a second clearing changes nothing. In a
    reachable state the history record of an alert that is still active
    is never cleared away. *)
Theorem clearResolvedAlerts_keeps_open s :
  (forall a, In a (alertHistory (clearResolvedAlerts s))
             <-> In a (alertHistory s) /\ a_resolved a = false) /\
  st_resolved (getStats (clearResolvedAlerts s)) = 0 /\
  clearResolvedAlerts (clearResolvedAlerts s) = clearResolvedAlerts s /\
  activeAlerts (clearResolvedAlerts s) = activeAlerts s /\
  lastCheckedValues (clearResolvedAlerts s) = lastCheckedValues s /\
  stateStore (clearResolvedAlerts s) = stateStore s /\
  (reachable s ->
   forall k a h,
     map_get k (activeAlerts s) = Some a ->
     history_find k (alertHistory s) = Some h ->
     history_find k (alertHistory (clearResolvedAlerts s)) = Some h).
Proof.
  split; [|split; [|split; [|split; [|split; [|split]]]]]; try reflexivity.
  - intros a. simpl. rewrite List.filter_In, negb_true_iff. reflexivity.
  - simpl. rewrite filter_none; [reflexivity|].
    intros x Hx. apply List.filter_In in Hx as [_ Hx].
    apply negb_true_iff in Hx. exact Hx.
  - unfold clearResolvedAlerts. simpl. rewrite filter_filter_same. reflexivity.
  - intros Hs k a h Hget Hfind.
    destruct (reachable_invariant s Hs) as [_ _ _ Htr].
    destruct (Htr _ _ _ Hget Hfind) as [_ Hres].
    unfold history_find in *. simpl.
    apply find_filter_keeps; [exact Hfind|]. rewrite Hres. reflexivity.
Qed.

(** X9. A record is listed by [renderFilteredAlerts] exactly when it is
    in the history, its severity is the selected one (or all are
    selected), its motor is the selected one (or all are), and it is
    unresolved or the [resolved] filter is on: turning that filter on
    adds the resolved records, it does not restrict the list to them.
    With the initial filters the list is what [clearResolvedAlerts]
    would keep; with all three filters open it is the whole history. *)
Theorem filteredAlerts_selects filters history :
  (forall a,
     In a (filteredAlerts filters history) <->
     In a history /\
     (f_severity filters = "all" \/
      severity_name (a_severity a) = f_severity filters) /\
     (f_motor filters = "all" \/ a_motorId a = f_motor filters) /\
     (f_resolved filters = true \/ a_resolved a = false)) /\
  filteredAlerts defaultFilters history
  = List.filter (fun a => negb (a_resolved a)) history /\
  filteredAlerts (mkFilters "all" "all" true) history = history.
Proof.
  split; [|split].
  - intros a. unfold filteredAlerts. rewrite List.filter_In.
    apply and_iff_compat_l. unfold matches.
    destruct (String.eqb_spec (f_severity filters) "all") as [Es|Es];
      destruct (String.eqb_spec (f_motor filters) "all") as [Em|Em];
      destruct (f_resolved filters) eqn:Er; simpl;
      rewrite ?andb_true_iff, ?negb_true_iff, ?String.eqb_eq;
      intuition congruence.
  - reflexivity.
  - unfold filteredAlerts. simpl. induction history as [|a l IH]; [reflexivity|].
    simpl. f_equal. exact IH.
Qed.

Lemma maxSeverity_from acc alerts :
  let result :=
    fold_left
      (fun max alert =>
         if (severityRank max <? severityRank (a_severity alert))%nat
         then a_severity alert else max)
      alerts acc in
  (acc = Critical \/ Exists (fun a => a_severity a = Critical) alerts ->
   result = Critical) /\
  (acc <> Critical -> Forall (fun a => a_severity a <> Critical) alerts ->
   acc = Warning \/ Exists (fun a => a_severity a = Warning) alerts ->
   result = Warning) /\
  (Forall (fun a => a_severity a = Normal) alerts -> result = acc).
Proof.
  revert acc. induction alerts as [|a l IH]; intros acc; simpl.
  - split; [|split].
    + intros [H|H]; [exact H|inversion H].
    + intros _ _ [H|H]; [exact H|inversion H].
    + reflexivity.
  - set (acc' := if (severityRank acc <? severityRank (a_severity a))%nat
                 then a_severity a else acc).
    destruct (IH acc') as (IH1 & IH2 & IH3).
    split; [|split].
    + intros H. apply IH1.
      destruct H as [->|H].
      * left. unfold acc'. destruct (a_severity a); reflexivity.
      * apply Exists_cons in H as [H|H]; [|right; exact H].
        left. unfold acc'. rewrite H. destruct acc; reflexivity.
    + intros Hacc Hall Hw. apply Forall_cons in Hall as [Ha Hl].
      apply IH2; [|exact Hl|].
      * unfold acc'. destruct (_ <? _)%nat; assumption.
      * destruct Hw as [->|Hw].
        -- left. unfold acc'. destruct (a_severity a); simpl; congruence.
        -- apply Exists_cons in Hw as [Hw|Hw]; [|right; exact Hw].
           left. unfold acc'. rewrite Hw. destruct acc; simpl; congruence.
    + intros Hall. apply Forall_cons in Hall as [Ha Hl].
      rewrite IH3 by exact Hl. unfold acc'. rewrite Ha.
      destruct acc; reflexivity.
Qed.

(** X10. The counter of active alerts shows their number, and in a
    reachable state with at least one active alert its class is the
    critical one exactly when some active alert is critical, and the
    warning one otherwise; with no active alert it shows 0 with the
    plain class. *)
Theorem badge_shows_highest s :
  reachable s ->
  (activeAlerts s = [] -> badge s = ("0", "alert-badge")) /\
  (activeAlerts s <> [] ->
   (badge s).1 = pretty (length (activeAlerts s)) /\
   (Exists (fun a => a_severity a = Critical) (map_values (activeAlerts s)) ->
    (badge s).2 = "alert-badge alert-critical") /\
   (~ Exists (fun a => a_severity a = Critical) (map_values (activeAlerts s)) ->
    (badge s).2 = "alert-badge alert-warning")).
Proof.
  intros Hs. destruct (reachable_severities_ok s Hs) as [_ Ha].
  unfold badge. split.
  - intros ->. reflexivity.
  - intros Hne. destruct (maxSeverity_from Normal (map_values (activeAlerts s)))
      as (H1 & H2 & _).
    fold (maxSeverity (map_values (activeAlerts s))) in H1, H2.
    destruct (map_values (activeAlerts s)) as [|a l] eqn:E.
    { destruct (activeAlerts s); [congruence|discriminate]. }
    rewrite <- E in *.
    split; [unfold map_values; rewrite length_map; reflexivity|]. split.
    + intros Hc. cbn [snd]. rewrite H1 by (right; exact Hc). reflexivity.
    + intros Hnc. cbn [snd]. rewrite H2; [reflexivity|discriminate| |].
      * apply Forall_forall. intros x Hx Hcx. apply Hnc.
        apply Exists_exists. eauto.
      * right. rewrite E. apply Exists_cons_hd.
        assert (a_severity a <> Normal) as Hn.
        { apply (proj1 (Forall_forall _ _) Ha). rewrite E. left. }
        assert (a_severity a <> Critical) as Hc.
        { intros Hc. apply Hnc. rewrite E. apply Exists_cons_hd. exact Hc. }
        destruct (a_severity a); congruence.
Qed.

End Views.

(** ** The alert manager and the store's alert list *)

Section ManagerAndStore.
Import Js AlertManager AlertViews.

Variables ManagerIds StoreIds : string -> Prop.
Hypothesis ids_apart : forall u, ManagerIds u -> StoreIds u -> False.

Lemma apart_init t : apart ManagerIds StoreIds (init t Store.initialState).
Proof. split; simpl; try constructor; reflexivity. Qed.

Lemma apart_handleAlert d env s :
  ManagerIds (uuid env) -> StoreIds (store_uuid env) ->
  apart ManagerIds StoreIds s -> apart ManagerIds StoreIds (handleAlert d env s).
Proof.
  intros Hu Hsu [Hm Hst Hact Hopen Hcount Hkpi]. unfold handleAlert.
  destruct (map_get (d_key d) (activeAlerts s)) as [a|] eqn:Hget.
  - split; simpl; try assumption.
    + apply Forall_forall. intros x Hx.
      apply list_elem_of_In, List.in_map_iff in Hx as (p & <- & Hp).
      apply map_set_In in Hp as [->|Hp].
      * simpl. apply (proj1 (Forall_forall _ _) Hm). apply list_elem_of_In.
        apply map_get_In in Hget.
        unfold map_values. apply List.in_map_iff. eexists. split; [|exact Hget].
        reflexivity.
      * apply (proj1 (Forall_forall _ _) Hm). apply list_elem_of_In.
        unfold map_values. apply List.in_map. exact Hp.
    + erewrite map_set_length_present by exact Hget. exact Hcount.
  - rewrite map_set_absent by exact Hget. split; simpl.
    + unfold map_values. rewrite List.map_app. apply Forall_app. split; [exact Hm|].
      constructor; [exact Hu|constructor].
    + apply Forall_app. split; [exact Hst|]. constructor; [|constructor].
      exists (store_uuid env). split; [|exact Hsu]. unfold field.
      rewrite lookup_insert_ne by discriminate.
      rewrite lookup_insert_ne by discriminate.
      rewrite lookup_insert_eq. reflexivity.
    + rewrite Hact, length_app. simpl. rewrite Nat.add_1_r, seq_S. reflexivity.
    + apply Forall_app. split; [exact Hopen|]. constructor; [|constructor].
      unfold field. rewrite lookup_insert_eq. reflexivity.
    + rewrite !length_app. simpl. lia.
    + unfold field. rewrite lookup_insert_eq. simpl.
      rewrite Hact, !length_app, length_seq. reflexivity.
Qed.

Lemma apart_store_resolve a t s :
  apart ManagerIds StoreIds s -> ManagerIds a ->
  Store.resolveAlert a t (stateStore s) = stateStore s.
Proof.
  intros [Hm Hst Hact Hopen Hcount Hkpi] Ha. unfold Store.resolveAlert.
  rewrite findIndex_none; [reflexivity|].
  apply Forall_forall. intros r Hr. unfold Store.has_id.
  destruct (Store.alert_objects (stateStore s) !! r) as [o|] eqn:Ho; [|reflexivity].
  apply list_elem_of_lookup_2 in Ho.
  destruct (proj1 (Forall_forall _ _) Hst o Ho) as (u & -> & Hu).
  apply String.eqb_neq. intros ->. exact (ids_apart _ Ha Hu).
Qed.

Lemma apart_resolveAlertByKey key env s :
  apart ManagerIds StoreIds s ->
  apart ManagerIds StoreIds (resolveAlertByKey key env s).
Proof.
  intros Hs. unfold resolveAlertByKey.
  destruct (map_get key (activeAlerts s)) as [a|] eqn:Hget; [|exact Hs].
  assert (ManagerIds (a_id a)) as Ha.
  { destruct Hs as [Hm _ _ _ _ _]. apply (proj1 (Forall_forall _ _) Hm).
    apply list_elem_of_In. apply map_get_In in Hget.
    unfold map_values. apply List.in_map_iff. eexists. split; [|exact Hget].
    reflexivity. }
  rewrite (apart_store_resolve _ _ _ Hs Ha).
  destruct Hs as [Hm Hst Hact Hopen Hcount Hkpi]. split; simpl; try assumption.
  - apply Forall_forall. intros x Hx.
    apply list_elem_of_In, List.in_map_iff in Hx as (p & <- & Hp).
    apply map_delete_In in Hp as [Hp _].
    apply (proj1 (Forall_forall _ _) Hm). apply list_elem_of_In.
    unfold map_values. apply List.in_map. exact Hp.
  - etransitivity; [|exact Hcount]. unfold map_delete. apply List.filter_length_le.
Qed.

Lemma apart_step s e :
  (forall env, In env (envs [e]) -> ManagerIds (uuid env) /\ StoreIds (store_uuid env)) ->
  foreign_writes_keep_alerts s [e] ->
  apart ManagerIds StoreIds s -> apart ManagerIds StoreIds (step s e).
Proof.
  intros Henv Hown Hs. destruct e; simpl.
  - destruct (Henv env) as [Hu Hsu]; [left; reflexivity|].
    assert (forall k v, apart ManagerIds StoreIds (remember k v s)) as Hrem.
    { intros k v. destruct Hs. split; assumption. }
    unfold checkThreshold. destruct (within_hysteresis _ _ _); [exact Hs|].
    destruct (evaluate motorId variable value) as [sev msg].
    destruct (negb (bool_decide (sev = Normal)) && negb (String.eqb msg "")).
    + apply apart_handleAlert; auto.
    + destruct (map_has _ _); [apply apart_resolveAlertByKey|]; apply Hrem.
  - unfold resolveAlert. destruct (List.find _ _); [|exact Hs].
    apply apart_resolveAlertByKey. exact Hs.
  - destruct Hs. split; assumption.
  - destruct Hs. split; simpl; try assumption; [constructor|lia].
  - destruct Hown as [(Hobjs & Hact & Hkpi) _]. destruct Hs.
    split; simpl; rewrite ?Hobjs, ?Hact, ?Hkpi; assumption.
Qed.

Lemma apart_run es s :
  (forall env, In env (envs es) -> ManagerIds (uuid env) /\ StoreIds (store_uuid env)) ->
  foreign_writes_keep_alerts s es ->
  apart ManagerIds StoreIds s -> apart ManagerIds StoreIds (run s es).
Proof.
  revert s. induction es as [|e es IH]; intros s Henv Hown Hs; [exact Hs|].
  destruct Hown as [He Hes].
  change (run s (e :: es)) with (run (step s e) es).
  apply IH; [|exact Hes|].
  - intros env Hin. apply Henv. unfold envs. simpl. apply in_or_app.
    right. exact Hin.
  - apply apart_step; [| |exact Hs].
    + intros env Hin. apply Henv. unfold envs in *. simpl in *.
      apply in_or_app. left. rewrite app_nil_r in Hin. exact Hin.
    + split; [exact He|exact I].
Qed.

End ManagerAndStore.

Section StoreNeverResolves.
Import Js AlertManager AlertViews.

Lemma omap_lookup_seq {A} (pre l : list A) :
  omap (fun r => (pre ++ l) !! r) (seq (length pre) (length l)) = l.
Proof.
  revert pre. induction l as [|x l IH]; intros pre; [reflexivity|].
  simpl. rewrite list_lookup_middle by reflexivity. f_equal.
  specialize (IH (pre ++ [x])). rewrite <- app_assoc, length_app in IH.
  simpl in IH. rewrite Nat.add_1_r in IH. exact IH.
Qed.

(** X11. The store gives every alert an identifier of its own, and the
    manager resolves by the identifier it drew itself. So as long as the
    other modules leave the alert arrays of the store alone and no
    identifier is drawn twice, nothing the manager does takes an alert
    off the store's active list: every alert the store was ever given is
    still active and unresolved there, the [activeAlerts] figure is
    their number, and it is at least the number of alerts active in the
    manager. *)
Theorem store_alerts_never_resolved t es :
  foreign_writes_keep_alerts (init t Store.initialState) es ->
  draws_apart es = true ->
  let s := run (init t Store.initialState) es in
  let store := stateStore s in
  Store.alerts_active store = seq 0 (length (Store.alert_objects store)) /\
  Forall (fun o => field o "resolved" = VBool false) (Store.getActiveAlerts store) /\
  length (Store.getActiveAlerts store) = length (Store.alert_objects store) /\
  field (Store.kpis store) "activeAlerts"
  = VNum (inject_Z (Z.of_nat (length (Store.alert_objects store)))) /\
  length (activeAlerts s) <= length (Store.getActiveAlerts store).
Proof.
  intros Hown Hdraws s store.
  assert (apart (fun u => exists env, In env (envs es) /\ uuid env = u)
                (fun u => exists env, In env (envs es) /\ store_uuid env = u) s) as H.
  { apply apart_run; [| |exact Hown|apply apart_init].
    - intros u (e2 & Hin2 & H2) (e1 & Hin1 & H1).
      unfold draws_apart in Hdraws.
      rewrite forallb_forall in Hdraws. specialize (Hdraws e1 Hin1).
      rewrite forallb_forall in Hdraws. specialize (Hdraws e2 Hin2).
      apply negb_true_iff, String.eqb_neq in Hdraws. congruence.
    - intros env Hin. split; exists env; auto. }
  destruct H as [Hm Hst Hact Hopen Hcount Hkpi]. fold store in Hst, Hact, Hopen, Hcount, Hkpi.
  assert (Store.getActiveAlerts store = Store.alert_objects store) as Hget.
  { unfold Store.getActiveAlerts. rewrite Hact.
    apply (omap_lookup_seq [] (Store.alert_objects store)). }
  rewrite Hget. repeat split; assumption.
Qed.

End StoreNeverResolves.

(** ** The monitor: metrics, recovery, health check and polled data *)

Section MonitorRuns.
Import Js RealtimeMonitor.

Lemma run_invariant (P : State -> Prop) cfg :
  (forall s te s', step cfg s te = Some s' -> P s -> P s') ->
  forall trace s s', run cfg s trace = Some s' -> P s -> P s'.
Proof.
  intros Hstep. induction trace as [|te rest IH]; intros s s' Hrun Hs.
  - injection Hrun as <-. exact Hs.
  - simpl in Hrun. destruct (step cfg s te) as [s1|] eqn:E; [|discriminate].
    simpl in Hrun. eapply IH; [exact Hrun|]. eapply Hstep; eassumption.
Qed.

Lemma cycleFailed_counters msg t d s :
  pollingAttempts (cycleFailed msg t d s) = pollingAttempts s /\
  pollingSuccess (cycleFailed msg t d s) = pollingSuccess s /\
  pollingErrors (cycleFailed msg t d s) = S (pollingErrors s) /\
  cyclesInFlight (cycleFailed msg t d s) = cyclesInFlight s.
Proof.
  unfold cycleFailed, handlePollingError.
  destruct (maxPollingRetries <=? _)%nat; repeat split; reflexivity.
Qed.

Lemma step_accounted cfg s te s' :
  step cfg s te = Some s' -> accounted s -> accounted s'.
Proof.
  unfold accounted. destruct te as [t e]. destruct e; simpl; intros H Hs.
  - destruct (started s); [discriminate|]. injection H as <-. exact Hs.
  - destruct (started s); [|discriminate]. injection H as <-. exact Hs.
  - destruct (started s); [|discriminate]. injection H as <-. exact Hs.
  - destruct (started s); [|discriminate]. injection H as <-. exact Hs.
  - destruct (started s); [|discriminate]. injection H as <-.
    unfold checkConnectionHealth. destruct (_ && _); exact Hs.
  - destruct (pollingInterval s); [|discriminate]. injection H as <-.
    unfold pollingTick. destruct (_ && _); [|exact Hs].
    unfold executePollingCycle. destruct (isPollingActive s); [exact Hs|].
    destruct hasToken; cbv zeta; cbn [negb].
    + simpl. rewrite length_app. simpl. lia.
    + match goal with
      | |- context [cycleFailed ?m ?t ?d ?x] =>
          destruct (cycleFailed_counters m t d x) as (-> & -> & -> & ->)
      end.
      simpl. lia.
  - destruct (cyclesInFlight s !! i) as [startTime|] eqn:E; [|discriminate].
    injection H as <-. simpl.
    rewrite length_delete by (rewrite E; eauto).
    apply lookup_lt_Some in E. lia.
  - destruct (cyclesInFlight s !! i) as [startTime|] eqn:E; [|discriminate].
    injection H as <-.
    destruct (cycleFailed_counters errorMessage t d
                (set_cyclesInFlight (delete i (cyclesInFlight s)) s))
      as (-> & -> & -> & ->).
    simpl. rewrite length_delete by (rewrite E; eauto).
    apply lookup_lt_Some in E. lia.
  - destruct (recoveryTimers s !! i) as [due|]; [|discriminate]. simpl in H.
    destruct (due <=? t)%Z; [|discriminate]. injection H as <-.
    unfold recoveryAttempt. destruct (decide _); exact Hs.
  - injection H as <-. exact Hs.
Qed.

(** X12. The polling metrics add up in every state the monitor reaches:
    the attempts are the successes plus the errors plus the cycles still
    waiting for their response. No event loses a count, and [stop()]
    does not reset them. *)
Theorem polling_metrics_add_up cfg store trace s :
  run cfg (initial store) trace = Some s ->
  pollingAttempts s
  = pollingSuccess s + pollingErrors s + length (cyclesInFlight s).
Proof.
  intros Hrun.
  apply (run_invariant accounted cfg (step_accounted cfg) trace _ _ Hrun).
  reflexivity.
Qed.

Lemma cycleFailed_recovery_pending msg t d s :
  recovery_pending s -> recovery_pending (cycleFailed msg t d s).
Proof.
  unfold recovery_pending, cycleFailed. intros Hs.
  set (s3 := set_pollingRetries _ _).
  destruct (handlePollingError_spec msg t d s3) as (_ & Hoff & Hsame & _).
  change (mode (set_isPollingActive false ?x)) with (mode x).
  change (recoveryTimers (set_isPollingActive false ?x)) with (recoveryTimers x).
  destruct (le_lt_dec 3 (pollingRetries s3)) as [Hge|Hlt].
  - destruct (Hoff Hge) as (_ & -> & _). intros _ Hnil.
    apply app_eq_nil in Hnil as [_ Hnil]. discriminate.
  - destruct (Hsame Hlt) as [-> ->]. exact Hs.
Qed.

Lemma step_recovery_pending cfg s te s' :
  step cfg s te = Some s' -> recovery_pending s -> recovery_pending s'.
Proof.
  intros H Hs.
  pose proof (step_mode cfg s te s' H) as Hmode.
  destruct te as [t e]. destruct e; simpl in H, Hmode.
  - intros Hoff. rewrite Hmode in Hoff. discriminate.
  - intros Hoff. rewrite Hmode in Hoff. discriminate.
  - intros Hoff. rewrite Hmode in Hoff. discriminate.
  - destruct (started s); [|discriminate]. injection H as <-. intros _.
    destruct (activateOfflineMode_spec t d
                (with_store
                   (Store.updateState Store.Connection
                      {[ "mode" := VStr "offline"; "status" := VStr "failed";
                         "lastUpdate" := VTime t ]})
                   (set_mode Offline s))) as (_ & Ht & _).
    unfold onWebsocketMaxRetries. rewrite Ht.
    intros Hnil. apply app_eq_nil in Hnil as [_ Hnil]. discriminate.
  - destruct (started s); [|discriminate]. injection H as <-.
    unfold checkConnectionHealth in *. destruct (_ && _); [|exact Hs].
    intros Hoff. discriminate.
  - destruct (pollingInterval s); [|discriminate]. injection H as <-.
    unfold pollingTick in *. destruct (_ && _); [|exact Hs].
    unfold executePollingCycle. destruct (isPollingActive s); [exact Hs|].
    destruct hasToken; cbv zeta; cbn [negb].
    + exact Hs.
    + apply cycleFailed_recovery_pending. exact Hs.
  - destruct (cyclesInFlight s !! i) as [startTime|]; [|discriminate].
    injection H as <-. exact Hs.
  - destruct (cyclesInFlight s !! i) as [startTime|]; [|discriminate].
    injection H as <-. apply cycleFailed_recovery_pending. exact Hs.
  - destruct (recoveryTimers s !! i) as [due|]; [|discriminate]. simpl in H.
    destruct (due <=? t)%Z; [|discriminate]. injection H as <-.
    intros Hoff. exfalso. revert Hoff. unfold recoveryAttempt.
    destruct (decide _) as [Hd|Hd]; simpl; [discriminate|exact Hd].
  - intros Hoff. rewrite Hmode in Hoff. discriminate.
Qed.

(** X13. The monitor is never offline without a recovery timer pending:
    in every state it reaches with mode offline there is a timer that has
    not fired, and when that timer fires the mode is polling again, the
    retry counter is 0 and the polling flag is clear. *)
Theorem offline_recovers cfg store trace s :
  run cfg (initial store) trace = Some s ->
  mode s = Offline ->
  exists i due,
    recoveryTimers s !! i = Some due /\
    forall t, (due <= t)%Z ->
      exists s',
        step cfg s (t, RecoveryTimer i) = Some s' /\
        mode s' = Polling /\ pollingRetries s' = 0 /\
        isPollingActive s' = false.
Proof.
  intros Hrun Hoff.
  assert (recovery_pending s) as Hp.
  { apply (run_invariant recovery_pending cfg (step_recovery_pending cfg)
             trace _ _ Hrun).
    intros H. discriminate. }
  specialize (Hp Hoff).
  destruct (recoveryTimers s) as [|due rest] eqn:E; [congruence|].
  exists 0, due. split; [reflexivity|].
  intros t Ht. simpl. rewrite E. simpl.
  apply Z.leb_le in Ht. rewrite Ht.
  eexists. split; [reflexivity|]. unfold recoveryAttempt.
  destruct (decide _) as [_|Hd]; [repeat split|].
  exfalso. apply Hd. exact Hoff.
Qed.

End MonitorRuns.

Section MonitorData.
Import Js RealtimeMonitor.

Lemma field_spread_new (old data : Obj) f v :
  data !! f = Some v -> field (spread old data) f = v.
Proof.
  intros H. unfold field, spread.
  rewrite (lookup_union_Some_l data old f v H). reflexivity.
Qed.

Lemma field_spread_old (old data : Obj) f :
  data !! f = None -> field (spread old data) f = field old f.
Proof.
  intros H. unfold field, spread. rewrite lookup_union_r by exact H. reflexivity.
Qed.

(** X14. The health check looks at the time since the store's
    [connection.lastUpdate]. Up to 30 seconds after the last
    [websocket:connected] event it changes nothing; later than that, if no
    update was written in between, it puts the monitor in polling mode
    with status [degraded] and a clear polling flag. Outside websocket
    mode it never does anything. A monitor whose store has never seen an
    update ([lastUpdate] still [null], read as 1970) is degraded by the
    first health check. *)
Theorem checkConnectionHealth_window t0 t s :
  let s0 := onWebsocketConnected t0 s in
  ((t - t0 <= 30000)%Z -> checkConnectionHealth t s0 = s0) /\
  ((30000 < t - t0)%Z ->
   let s1 := checkConnectionHealth t s0 in
   mode s1 = Polling /\ isPollingActive s1 = false /\
   field (Store.connection (stateStore s1)) "mode" = VStr "polling" /\
   field (Store.connection (stateStore s1)) "status" = VStr "degraded" /\
   field (Store.connection (stateStore s1)) "lastUpdate" = VTime t0) /\
  (mode s <> Websocket -> checkConnectionHealth t s = s) /\
  (mode s = Websocket ->
   field (Store.connection (stateStore s)) "lastUpdate" = VNull ->
   (30000 < t)%Z ->
   mode (checkConnectionHealth t s) = Polling).
Proof.
  intros s0.
  assert (field (Store.connection (stateStore s0)) "lastUpdate" = VTime t0) as Hlast.
  { subst s0. simpl. apply field_spread_new. reflexivity. }
  split; [|split; [|split]].
  - intros Ht. unfold checkConnectionHealth. rewrite Hlast.
    change (lastUpdate_ms (VTime t0)) with (Some t0). cbv beta iota. replace (30 * 1000 <? t - t0)%Z with false; [reflexivity|].
    symmetry. apply Z.ltb_ge. lia.
  - intros Ht s1. subst s1. unfold checkConnectionHealth. rewrite Hlast.
    change (lastUpdate_ms (VTime t0)) with (Some t0). cbv beta iota.
    replace (30 * 1000 <? t - t0)%Z with true by (symmetry; apply Z.ltb_lt; lia).
    change (mode s0) with Websocket.
    rewrite bool_decide_eq_true_2 by reflexivity. cbn [andb].
    split; [reflexivity|]. split; [reflexivity|].
    change (stateStore (resumePolling ?x)) with (stateStore x).
    change (stateStore (with_store ?f ?x)) with (f (stateStore x)).
    change (stateStore (set_mode ?m ?x)) with (stateStore x).
    change (Store.connection (Store.updateState Store.Connection ?d ?st))
      with (spread (Store.connection st) d).
    split; [apply field_spread_new; reflexivity|].
    split; [apply field_spread_new; reflexivity|].
    rewrite field_spread_old by reflexivity. exact Hlast.
  - intros Hm. unfold checkConnectionHealth.
    rewrite (bool_decide_eq_false_2 _ Hm), andb_false_r. reflexivity.
  - intros Hm Hnull Ht. unfold checkConnectionHealth. rewrite Hnull.
    change (lastUpdate_ms VNull) with (Some 0%Z). cbv beta iota.
    replace (30 * 1000 <? t - 0)%Z with true by (symmetry; apply Z.ltb_lt; lia).
    rewrite (bool_decide_eq_true_2 _ Hm). reflexivity.
Qed.

Lemma collect_empty suffix variables apiData :
  (forall v, In v variables -> field apiData (v +:+ suffix) = VUndefined) ->
  collect suffix variables apiData = ∅.
Proof.
  induction variables as [|v rest IH]; intros H; [reflexivity|].
  simpl. rewrite (H v (or_introl eq_refl)). apply IH.
  intros v' Hv'. apply H. right. exact Hv'.
Qed.

Lemma collect_absent suffix variables apiData k :
  ~ In k variables -> collect suffix variables apiData !! k = None.
Proof.
  induction variables as [|v rest IH]; intros H; [apply lookup_empty|].
  simpl. assert (v <> k) as Hne by (intros ->; apply H; left; reflexivity).
  assert (collect suffix rest apiData !! k = None) as Hrest
    by (apply IH; intros Hin; apply H; right; exact Hin).
  destruct (field apiData (v +:+ suffix));
    rewrite ?lookup_insert_ne by exact Hne; exact Hrest.
Qed.

Lemma collect_present suffix variables apiData v x :
  In v variables -> field apiData (v +:+ suffix) = x -> x <> VUndefined ->
  collect suffix variables apiData !! v = Some x.
Proof.
  intros Hin Hx Hdef. induction variables as [|v' rest IH]; [destruct Hin|].
  simpl. destruct (decide (v' = v)) as [->|Hne].
  - rewrite Hx. destruct x; try congruence; apply lookup_insert_eq.
  - destruct Hin as [Heq|Hin]; [congruence|].
    destruct (field apiData (v' +:+ suffix));
      rewrite ?lookup_insert_ne by exact Hne; apply IH; exact Hin.
Qed.

Lemma processPollingData_motors cfg apiData t st :
  Store.motors (processPollingData cfg apiData t st)
  = Store.motors
      (let motor1Data := collect "_motor1" (motor1_variables cfg) apiData in
       let motor2Data := collect "_motor2" (motor2_variables cfg) apiData in
       let complete (d : Obj) : Obj :=
         <[ "status" := VStr "normal" ]> (<[ "lastUpdate" := VTime t ]> d) in
       let st1 :=
         if bool_decide (motor1Data = ∅) then st
         else Store.updateMotor "motor1" (complete motor1Data) t st in
       if bool_decide (motor2Data = ∅) then st1
       else Store.updateMotor "motor2" (complete motor2Data) t st1).
Proof.
  unfold processPollingData. cbv zeta.
  destruct (truthy (field apiData "timestamp")); [|reflexivity].
  apply updateState_motors.
Qed.

Lemma updateMotor_keeps_field motorId motorId' data t st f v :
  data !! f = None -> f <> "lastUpdate" ->
  (exists m, Store.motors st !! motorId' = Some m /\ m !! f = Some v) ->
  exists m, Store.motors (Store.updateMotor motorId data t st) !! motorId' = Some m
            /\ m !! f = Some v.
Proof.
  intros Hdata Hf (m & Hm & Hv).
  destruct (decide (motorId = motorId')) as [->|Hne].
  - erewrite updateMotor_same by exact Hm. eexists. split; [reflexivity|].
    rewrite lookup_insert_ne by congruence. unfold spread.
    rewrite lookup_union_r by exact Hdata. exact Hv.
  - rewrite updateMotor_other by exact Hne. eauto.
Qed.

(** X15. What a polled response does to the store. A response that
    defines none of the configured variables and carries no timestamp
    leaves the store as it was. A configured variable of motor 1 that
    the response defines (under [<key>_motor1]) is stored under its key
    in the record of motor 1, whose status becomes [normal] and whose
    [lastUpdate] is the clock reading; the keys [status] and
    [lastUpdate] themselves are overwritten. *)
Theorem processPollingData_stores cfg apiData t st :
  ((forall v, In v (motor1_variables cfg) ->
      field apiData (v +:+ "_motor1") = VUndefined) ->
   (forall v, In v (motor2_variables cfg) ->
      field apiData (v +:+ "_motor2") = VUndefined) ->
   truthy (field apiData "timestamp") = false ->
   processPollingData cfg apiData t st = st) /\
  (forall v x,
     In v (motor1_variables cfg) ->
     field apiData (v +:+ "_motor1") = x -> x <> VUndefined ->
     v <> "status" -> v <> "lastUpdate" ->
     is_Some (Store.motors st !! "motor1") ->
     exists m,
       Store.motors (processPollingData cfg apiData t st) !! "motor1" = Some m /\
       field m v = x /\
       field m "status" = VStr "normal" /\
       field m "lastUpdate" = VTime t).
Proof.
  split.
  - intros H1 H2 Hts. unfold processPollingData.
    rewrite (collect_empty _ _ _ H1), (collect_empty _ _ _ H2), Hts.
    rewrite bool_decide_eq_true_2 by reflexivity. reflexivity.
  - intros v x Hin Hx Hdef Hs Hl [old Hold].
    rewrite processPollingData_motors. cbv zeta.
    pose proof (collect_present "_motor1" _ apiData v x Hin Hx Hdef) as Hc.
    rewrite (bool_decide_eq_false_2 (collect "_motor1" (motor1_variables cfg) apiData = ∅))
      by (intros He; rewrite He, lookup_empty in Hc; discriminate).
    set (data1 := <[ "status" := _ ]> _).
    assert (exists m,
              Store.motors (Store.updateMotor "motor1" data1 t st) !! "motor1" = Some m /\
              field m v = x /\ field m "status" = VStr "normal" /\
              field m "lastUpdate" = VTime t) as (m & Hm & Hv & Hst & Hlu).
    { erewrite updateMotor_same by exact Hold. eexists. split; [reflexivity|].
      unfold field. split; [|split].
      - rewrite lookup_insert_ne by congruence. unfold spread.
        erewrite lookup_union_Some_l; [reflexivity|]. unfold data1.
        rewrite !lookup_insert_ne by congruence. exact Hc.
      - rewrite lookup_insert_ne by discriminate. unfold spread.
        erewrite lookup_union_Some_l; [reflexivity|]. unfold data1.
        apply lookup_insert_eq.
      - rewrite lookup_insert_eq. reflexivity. }
    destruct (bool_decide (collect "_motor2" _ _ = ∅)); [eauto|].
    rewrite updateMotor_other by discriminate. eauto.
Qed.

(** X16. Nothing the polling path writes clears the [isSimulated] mark
    that offline mode puts on a motor: unless [isSimulated] is itself a
    configured variable, the record of a motor marked as simulated is
    still marked after a polled response has been processed, also when
    that response brought real readings for it, and so after a whole
    successful cycle. *)
Theorem processPollingData_keeps_isSimulated cfg apiData startTime t s motorId :
  ~ In "isSimulated" (motor1_variables cfg) ->
  ~ In "isSimulated" (motor2_variables cfg) ->
  simulated (stateStore s) motorId ->
  simulated (processPollingData cfg apiData t (stateStore s)) motorId /\
  simulated (stateStore (cycleSucceeded cfg apiData startTime t s)) motorId.
Proof.
  intros H1 H2 Hsim.
  assert (simulated (processPollingData cfg apiData t (stateStore s)) motorId) as Hp.
  { unfold simulated in *. rewrite processPollingData_motors. cbv zeta.
    assert (forall suffix variables,
              ~ In "isSimulated" variables ->
              (<[ "status" := VStr "normal" ]>
                 (<[ "lastUpdate" := VTime t ]> (collect suffix variables apiData))
               : Obj) !! "isSimulated" = None) as Hdata.
    { intros suffix variables Hv. rewrite !lookup_insert_ne by discriminate.
      apply collect_absent. exact Hv. }
    destruct (bool_decide (collect "_motor2" _ _ = ∅));
      destruct (bool_decide (collect "_motor1" _ _ = ∅));
      repeat (apply updateMotor_keeps_field;
              [apply Hdata; assumption|discriminate|]);
      exact Hsim. }
  split; [exact Hp|].
  unfold simulated in *. unfold cycleSucceeded. cbv zeta.
  change (stateStore (set_isPollingActive false ?x)) with (stateStore x).
  change (stateStore (with_store ?f ?x)) with (f (stateStore x)).
  rewrite updateState_motors. exact Hp.
Qed.

End MonitorData.

(** ** The socket service: runs *)

Section SocketServiceRuns.
Import Js WebSocketService SocketRuns.

Lemma scheduleReconnect_bounded s :
  currentRetries s <= 10 ->
  currentRetries (scheduleReconnect s).1 <= 10 /\
  scheduled_ok (scheduleReconnect s).2.
Proof.
  intros Hs. unfold scheduleReconnect, maxRetries.
  destruct (10 <=? currentRetries s)%nat eqn:E; simpl.
  - split; [exact Hs|]. intros delay [].
  - apply Nat.leb_gt in E. split; [lia|].
    intros delay [[= <-]|[]]. exists (S (currentRetries s)). split; [lia|reflexivity].
Qed.

Lemma step_bounded s e :
  currentRetries s <= 10 ->
  currentRetries (step s e).1 <= 10 /\ scheduled_ok (step s e).2.
Proof.
  intros Hs.
  assert (forall s0 : State, currentRetries s0 <= 10 ->
            currentRetries s0 <= 10 /\ scheduled_ok []) as Hnil.
  { intros s0 H0. split; [exact H0|]. intros delay []. }
  assert (forall constructed s0, currentRetries s0 <= 10 ->
            currentRetries (connect constructed s0).1 <= 10 /\
            scheduled_ok (connect constructed s0).2) as Hconnect.
  { intros constructed s0 H0. unfold connect.
    destruct (isConnected s0); [apply Hnil; exact H0|].
    destruct constructed; [apply Hnil; exact H0|].
    apply scheduleReconnect_bounded. exact H0. }
  destruct e; simpl.
  - apply Hconnect. exact Hs.
  - unfold reconnectCallback. destruct (negb (isManualClose s)).
    + apply Hconnect. exact Hs.
    + apply Hnil. exact Hs.
  - split; [lia|]. intros delay [H|[]]. discriminate.
  - unfold onclose. cbv zeta.
    destruct (_ && _).
    + apply scheduleReconnect_bounded. exact Hs.
    + destruct (negb _); simpl; (split; [exact Hs|]).
      * intros delay [H|[]]. discriminate.
      * intros delay [].
  - apply Hnil. exact Hs.
Qed.

Lemma run_bounded es s :
  currentRetries s <= 10 ->
  currentRetries (run s es).1 <= 10 /\ scheduled_ok (run s es).2.
Proof.
  revert s. induction es as [|e rest IH]; intros s Hs; simpl.
  - split; [exact Hs|]. intros delay [].
  - destruct (step_bounded s e Hs) as [H1 Hout1].
    destruct (step s e) as [s1 out1]. simpl in H1, Hout1.
    destruct (IH s1 H1) as [H2 Hout2].
    destruct (run s1 rest) as [s2 out2]. simpl in *.
    split; [exact H2|]. intros delay Hin.
    apply in_app_or in Hin as [Hin|Hin]; auto.
Qed.

Lemma reconnectDelay_range n :
  1 <= n <= 10 -> (3000 <= reconnectDelay n <= reconnectDelay 10)%Q.
Proof.
  intros Hn. split.
  - destruct (decide (n = 1)) as [->|Hne]; [apply Qle_lteq; right; reflexivity|].
    apply Qlt_le_weak. apply Qle_lt_trans with (reconnectDelay 1).
    + apply Qle_lteq. right. reflexivity.
    + apply reconnectDelay_lt; lia.
  - destruct (decide (n = 10)) as [->|Hne]; [apply Qle_refl|].
    apply Qlt_le_weak. apply reconnectDelay_lt; lia.
Qed.

(** X17. Whatever the application and the browser deliver to a fresh
    service, in whatever order, the retry counter never passes 10 and
    every reconnect timer the service sets has one of the ten delays of
    the backoff: at least 3 seconds and less than 116 seconds. *)
Theorem reconnect_delays_bounded store es :
  currentRetries (run (initial store) es).1 <= 10 /\
  forall delay,
    In (SetTimeout delay) (run (initial store) es).2 ->
    (exists n, 1 <= n <= 10 /\ delay = reconnectDelay n) /\
    (3000 <= delay < 116000)%Q.
Proof.
  destruct (run_bounded es (initial store)) as [Hr Hout]; [simpl; lia|].
  split; [exact Hr|]. intros delay Hin.
  destruct (Hout delay Hin) as (n & Hn & ->).
  split; [eauto|].
  destruct (reconnectDelay_range n Hn) as [Hlo Hhi]. split; [exact Hlo|].
  eapply Qle_lt_trans; [exact Hhi|]. reflexivity.
Qed.



End SocketServiceRuns.

(** ** The socket service: telemetry messages *)

Section Telemetry.
Import Js WebSocketService SocketRuns.

Lemma andThen_Threw_r a : andThen a Threw = Threw.
Proof. destruct a; reflexivity. Qed.

Lemma checkThreshold_evaluate motorId variable value :
  checkThreshold motorId variable value = Returned <->
  (AlertManager.evaluate motorId variable value).1 = AlertManager.Normal.
Proof.
  unfold checkThreshold, AlertManager.evaluate, addAlert.
  destruct (match AlertManager.v_critical variable with
            | Some c => Qle_bool c value | None => false end);
    [simpl; split; discriminate|].
  destruct (match AlertManager.v_criticalLow variable with
            | Some c => Qle_bool value c | None => false end);
    [simpl; split; discriminate|].
  destruct (Qltb (AlertManager.v_normalMax variable) value);
    [simpl; split; discriminate|].
  destruct (Qltb value (AlertManager.v_normalMin variable));
    simpl; split; congruence.
Qed.

Lemma forEach_Returned {A} (f : A -> Outcome) (l : list A) (done : Outcome) :
  fold_left (fun done v => andThen done (f v)) l done = Returned <->
  done = Returned /\ Forall (fun v => f v = Returned) l.
Proof.
  revert done. induction l as [|v l IH]; intros done; simpl.
  - split; [intros ->; split; [reflexivity|constructor]|intros [-> _]; reflexivity].
  - rewrite IH. rewrite Forall_cons. destruct done; simpl.
    + tauto.
    + split; [intros [H _]|intros [H _]]; discriminate.
Qed.

Lemma checkMotorReadings_Returned MOTORS motorId suffix data :
  checkMotorReadings MOTORS motorId suffix data = Returned <->
  exists motorConfig,
    AlertViews.findMotor MOTORS motorId = Some motorConfig /\
    forall v value,
      In v (AlertViews.m_variables motorConfig) ->
      reading data (AlertManager.v_key v +:+ suffix) = Some value ->
      (AlertManager.evaluate motorId v value).1 = AlertManager.Normal.
Proof.
  unfold checkMotorReadings.
  destruct (AlertViews.findMotor MOTORS motorId) as [m|].
  - rewrite forEach_Returned. split.
    + intros [_ H]. exists m. split; [reflexivity|].
      intros v value Hin Hr. rewrite Forall_forall in H.
      specialize (H v (proj2 (list_elem_of_In _ _) Hin)). simpl in H.
      rewrite Hr in H. apply checkThreshold_evaluate. exact H.
    + intros (m' & [= <-] & Hall). split; [reflexivity|].
      apply Forall_forall. intros v Hin.
      apply list_elem_of_In in Hin.
      destruct (reading data _) as [value|] eqn:Hr; [|reflexivity].
      apply checkThreshold_evaluate. eapply Hall; eassumption.
  - split; [discriminate|]. intros (m & H & _). discriminate.
Qed.

Lemma storeReadings_rest data now st :
  Store.connection (storeReadings data now st) = Store.connection st /\
  Store.kpis (storeReadings data now st) = Store.kpis st /\
  Store.alerts_active (storeReadings data now st) = Store.alerts_active st /\
  Store.systemStatus (storeReadings data now st) = Store.systemStatus st.
Proof.
  unfold storeReadings. revert st.
  induction data as [|entry rest IH]; intros st; [auto|].
  simpl. match goal with |- context [fold_left ?f rest ?x] =>
    destruct (IH x) as (-> & -> & -> & ->) end.
  assert (forall motorId d,
            Store.connection (Store.updateMotor motorId d now st) = Store.connection st /\
            Store.kpis (Store.updateMotor motorId d now st) = Store.kpis st /\
            Store.alerts_active (Store.updateMotor motorId d now st)
            = Store.alerts_active st /\
            Store.systemStatus (Store.updateMotor motorId d now st)
            = Store.systemStatus st) as Hu.
  { intros motorId d. unfold Store.updateMotor.
    destruct (Store.motors st !! motorId); auto. }
  destruct (includes "motor1" entry.1); [apply Hu|].
  destruct (includes "motor2" entry.1); [apply Hu|]. auto.
Qed.

Lemma checkForAlerts_breach MOTORS data :
  breach MOTORS data -> checkForAlerts MOTORS data = Threw.
Proof.
  intros (motorId & m & v & value & Hid & Hfind & Hin & Hr & Hsev).
  unfold checkForAlerts. destruct Hid as [-> | ->].
  - destruct (checkMotorReadings MOTORS "motor1" "_motor1" data) eqn:E;
      [|reflexivity].
    apply checkMotorReadings_Returned in E as (m' & Hm' & Hall).
    rewrite Hfind in Hm'. injection Hm' as <-.
    exfalso. apply Hsev. eapply Hall; eassumption.
  - destruct (checkMotorReadings MOTORS "motor2" "_motor2" data) eqn:E;
      [|apply andThen_Threw_r].
    apply checkMotorReadings_Returned in E as (m' & Hm' & Hall).
    rewrite Hfind in Hm'. injection Hm' as <-.
    exfalso. apply Hsev. eapply Hall; eassumption.
Qed.

Lemma checkForAlerts_normal MOTORS data :
  is_Some (AlertViews.findMotor MOTORS "motor1") ->
  is_Some (AlertViews.findMotor MOTORS "motor2") ->
  ~ breach MOTORS data -> checkForAlerts MOTORS data = Returned.
Proof.
  intros [m1 H1] [m2 H2] Hno. unfold checkForAlerts.
  assert (forall motorId m,
            motorId = "motor1" \/ motorId = "motor2" ->
            AlertViews.findMotor MOTORS motorId = Some m ->
            checkMotorReadings MOTORS motorId ("_" +:+ motorId) data = Returned)
    as Hok.
  { intros motorId m Hid Hfind. apply checkMotorReadings_Returned.
    exists m. split; [exact Hfind|]. intros v value Hin Hr.
    destruct (decide ((AlertManager.evaluate motorId v value).1
                      = AlertManager.Normal)) as [Hn|Hn]; [exact Hn|].
    exfalso. apply Hno. exists motorId, m, v, value. auto. }
  assert (checkMotorReadings MOTORS "motor1" "_motor1" data = Returned) as ->
    by exact (Hok "motor1" m1 (or_introl eq_refl) H1).
  assert (checkMotorReadings MOTORS "motor2" "_motor2" data = Returned) as ->
    by exact (Hok "motor2" m2 (or_intror eq_refl) H2).
  reflexivity.
Qed.

Lemma onmessage_breach_connection MOTORS data now st :
  breach MOTORS data ->
  Store.connection (onmessage MOTORS (Some data) now st) = Store.connection st.
Proof.
  intros Hb. unfold onmessage, handleTelemetryLatest.
  rewrite (checkForAlerts_breach _ _ Hb). apply storeReadings_rest.
Qed.

Lemma onmessage_normal_lastUpdate MOTORS data now st :
  is_Some (AlertViews.findMotor MOTORS "motor1") ->
  is_Some (AlertViews.findMotor MOTORS "motor2") ->
  ~ breach MOTORS data ->
  field (Store.connection (onmessage MOTORS (Some data) now st)) "lastUpdate"
  = VTime now.
Proof.
  intros H1 H2 Hno. unfold onmessage, handleTelemetryLatest.
  rewrite (checkForAlerts_normal _ _ H1 H2 Hno).
  simpl. apply field_spread_new. reflexivity.
Qed.

(** X19. A [telemetry_latest] message always reaches the motors of the
    store, but it refreshes [connection.lastUpdate] only when the
    service's threshold check does not throw. The check calls a method
    the alert manager does not have, so it throws when some configured
    variable of motor 1 or motor 2 has a reading that the alert
    manager's own rule calls critical or warning: then the message
    leaves the connection section untouched. When both motors are
    configured and every reading is normal, [lastUpdate] becomes the
    clock reading. *)
Theorem telemetry_breach_keeps_lastUpdate MOTORS data now st :
  Store.motors (onmessage MOTORS (Some data) now st)
  = Store.motors (storeReadings data now st) /\
  (breach MOTORS data ->
   (handleTelemetryLatest MOTORS (Some data) now st).1 = Threw /\
   Store.connection (onmessage MOTORS (Some data) now st) = Store.connection st) /\
  (is_Some (AlertViews.findMotor MOTORS "motor1") ->
   is_Some (AlertViews.findMotor MOTORS "motor2") ->
   ~ breach MOTORS data ->
   (handleTelemetryLatest MOTORS (Some data) now st).1 = Returned /\
   field (Store.connection (onmessage MOTORS (Some data) now st)) "lastUpdate"
   = VTime now).
Proof.
  split; [|split].
  - unfold onmessage, handleTelemetryLatest.
    destruct (checkForAlerts MOTORS data); [|reflexivity].
    rewrite !updateState_motors. reflexivity.
  - intros Hb. split; [|apply onmessage_breach_connection; exact Hb].
    unfold handleTelemetryLatest. rewrite (checkForAlerts_breach _ _ Hb).
    reflexivity.
  - intros H1 H2 Hno. split; [|apply onmessage_normal_lastUpdate; assumption].
    unfold handleTelemetryLatest. rewrite (checkForAlerts_normal _ _ H1 H2 Hno).
    reflexivity.
Qed.

Lemma prefix_app p b : String.prefix p (p +:+ b) = true.
Proof.
  induction p as [|c p IH]; simpl; [destruct b; reflexivity|].
  destruct (Ascii.ascii_dec c c) as [_|H]; [exact IH|congruence].
Qed.

Lemma append_empty_r (a : string) : a +:+ "" = a.
Proof.
  induction a as [|c a IH]; [reflexivity|].
  change (String c (a +:+ "") = String c a). f_equal. exact IH.
Qed.

Lemma append_assoc (a b c : string) : (a +:+ b) +:+ c = a +:+ (b +:+ c).
Proof.
  induction a as [|x a IH]; [reflexivity|].
  change (String x ((a +:+ b) +:+ c) = String x (a +:+ (b +:+ c))).
  f_equal. exact IH.
Qed.

Lemma includes_prefix needle hay :
  String.prefix needle hay = true -> includes needle hay = true.
Proof.
  intros H. destruct hay as [|c hay].
  - change ((if String.prefix needle "" then true else false) = true).
    rewrite H. reflexivity.
  - change ((if String.prefix needle (String c hay) then true
             else includes needle hay) = true).
    rewrite H. reflexivity.
Qed.

Lemma includes_suffix needle a : includes needle (a +:+ needle) = true.
Proof.
  induction a as [|c a IH].
  - apply includes_prefix. pose proof (prefix_app needle "") as H.
    rewrite append_empty_r in H. exact H.
  - change (String c a +:+ needle) with (String c (a +:+ needle)).
    change (includes needle (String c (a +:+ needle)))
      with (if String.prefix needle (String c (a +:+ needle)) then true
            else includes needle (a +:+ needle)).
    rewrite IH.
    destruct (String.prefix needle (String c (a +:+ needle))); reflexivity.
Qed.

Lemma replace_suffix v :
  clean "_motor1" v = true -> replace "_motor1" "" (v +:+ "_motor1") = v.
Proof.
  induction v as [|c v IH]; [reflexivity|].
  intros H. unfold clean in H. fold clean in H.
  apply andb_true_iff in H as [Hc Hrest]. apply negb_true_iff in Hc.
  change (String c v +:+ "_motor1") with (String c (v +:+ "_motor1")) in *.
  unfold replace. fold replace. rewrite Hc. f_equal. apply IH. exact Hrest.
Qed.

Lemma storeReadings_snoc data entry now st :
  storeReadings (data ++ [entry]) now st
  = storeReadings [entry] now (storeReadings data now st).
Proof. unfold storeReadings. rewrite fold_left_app. reflexivity. Qed.

Lemma storeReadings_keeps_motor data now st motorId :
  is_Some (Store.motors st !! motorId) ->
  is_Some (Store.motors (storeReadings data now st) !! motorId).
Proof.
  unfold storeReadings. revert st.
  induction data as [|entry rest IH]; intros st Hs; [exact Hs|].
  simpl. apply IH.
  assert (forall m d, is_Some (Store.motors (Store.updateMotor m d now st) !! motorId))
    as Hu.
  { intros m d. destruct (decide (m = motorId)) as [->|Hne].
    - destruct Hs as [old Hold]. erewrite updateMotor_same by exact Hold. eauto.
    - rewrite updateMotor_other by exact Hne. exact Hs. }
  destruct (includes "motor1" entry.1); [apply Hu|].
  destruct (includes "motor2" entry.1); [apply Hu|]. exact Hs.
Qed.

(** X20. Where a telemetry reading goes. The last entry of a message
    with key [<variable>_motor1] is stored in the record of motor 1
    under [<variable>], with [lastUpdate] set to the clock reading,
    provided the text [_motor1] does not already begin inside the
    variable name. An entry whose key mentions neither [motor1] nor
    [motor2] changes nothing. *)
Theorem storeReadings_routes data v x now st :
  (clean "_motor1" v = true -> v <> "lastUpdate" ->
   is_Some (Store.motors st !! "motor1") ->
   exists m,
     Store.motors (storeReadings (data ++ [(v +:+ "_motor1", x)]) now st) !! "motor1"
     = Some m /\
     field m v = VNum x /\ field m "lastUpdate" = VTime now) /\
  (forall key,
     includes "motor1" key = false -> includes "motor2" key = false ->
     storeReadings (data ++ [(key, x)]) now st = storeReadings data now st).
Proof.
  split.
  - intros Hclean Hv Hm. rewrite storeReadings_snoc.
    destruct (storeReadings_keeps_motor data now st "motor1" Hm) as [old Hold].
    unfold storeReadings at 1. simpl fold_left. cbn [fst snd].
    assert (includes "motor1" (v +:+ "_motor1") = true) as ->.
    { pose proof (includes_suffix "motor1" (v +:+ "_")) as H.
      rewrite append_assoc in H. exact H. }
    rewrite (replace_suffix v Hclean).
    erewrite updateMotor_same by exact Hold. eexists. split; [reflexivity|].
    unfold field. split.
    + rewrite lookup_insert_ne by congruence. unfold spread.
      erewrite lookup_union_Some_l; [reflexivity|]. apply lookup_singleton_eq.
    + rewrite lookup_insert_eq. reflexivity.
  - intros key H1 H2. rewrite storeReadings_snoc.
    unfold storeReadings at 1. simpl fold_left. cbn [fst snd].
    rewrite H1, H2. reflexivity.
Qed.

(** X21. Alarming telemetry is no sign of life. With the monitor in
    websocket mode and the last update written at [t0], a telemetry
    message with a breach that arrives at [t1] leaves the health check
    where it was: more than 30 seconds after [t0] the check puts the
    monitor in polling mode, however recent the message. The same
    message without a breach (both motors configured) keeps the monitor
    in websocket mode for 30 seconds from [t1]. *)
Theorem breach_is_no_sign_of_life MOTORS data t0 t1 t s :
  RealtimeMonitor.mode s = RealtimeMonitor.Websocket ->
  field (Store.connection (RealtimeMonitor.stateStore s)) "lastUpdate" = VTime t0 ->
  let s1 := RealtimeMonitor.with_store (onmessage MOTORS (Some data) t1) s in
  (breach MOTORS data -> (30000 < t - t0)%Z ->
   RealtimeMonitor.mode (RealtimeMonitor.checkConnectionHealth t s1)
   = RealtimeMonitor.Polling) /\
  (is_Some (AlertViews.findMotor MOTORS "motor1") ->
   is_Some (AlertViews.findMotor MOTORS "motor2") ->
   ~ breach MOTORS data -> (t - t1 <= 30000)%Z ->
   RealtimeMonitor.checkConnectionHealth t s1 = s1).
Proof.
  intros Hmode Hlast s1. split.
  - intros Hb Ht. unfold RealtimeMonitor.checkConnectionHealth.
    change (RealtimeMonitor.stateStore s1)
      with (onmessage MOTORS (Some data) t1 (RealtimeMonitor.stateStore s)).
    rewrite (onmessage_breach_connection _ _ _ _ Hb), Hlast.
    change (RealtimeMonitor.lastUpdate_ms (VTime t0)) with (Some t0).
    cbv beta iota.
    replace (30 * 1000 <? t - t0)%Z with true by (symmetry; apply Z.ltb_lt; lia).
    change (RealtimeMonitor.mode s1) with (RealtimeMonitor.mode s).
    rewrite (bool_decide_eq_true_2 _ Hmode). reflexivity.
  - intros H1 H2 Hno Ht. unfold RealtimeMonitor.checkConnectionHealth.
    change (RealtimeMonitor.stateStore s1)
      with (onmessage MOTORS (Some data) t1 (RealtimeMonitor.stateStore s)).
    rewrite (onmessage_normal_lastUpdate _ _ _ _ H1 H2 Hno).
    change (RealtimeMonitor.lastUpdate_ms (VTime t1)) with (Some t1).
    cbv beta iota.
    replace (30 * 1000 <? t - t1)%Z with false by (symmetry; apply Z.ltb_ge; lia).
    reflexivity.
Qed.

End Telemetry.

(** ** The further properties on the concrete plant *)


(** X3 on the plant: no alert is active in a fresh store. *)
Lemma resolveAlert_unknown_id_witness :
  Store.resolveAlert "u1" 5 Store.initialState = Store.initialState.
Proof.
  exact (proj1 (resolveAlert_unknown_id "u1" 5%Z Store.initialState) (Forall_nil_2 _)).
Defined.


(** X5 on the plant: the first subscriber of the motors section. *)
Lemma subscribe_unsubscribe_witness :
  StoreRuns.callbacks
    (StoreRuns.unsubscribe "motors" 7 (StoreRuns.subscribe "motors" 7 ∅)) "motors"
  = StoreRuns.callbacks ∅ "motors".
Proof.
  exact (proj1 (subscribe_unsubscribe "motors" 7 ∅) (fun H => H)).
Defined.

(** X6 on the plant: a snapshot checked on a fresh manager. *)
Lemma checkMotorAlerts_batch_witness :
  AlertManager.reachable
    (AlertViews.checkMotorAlerts Plant.MOTORS Plant.snapshot Plant.envOf
       Scenario.start).
Proof.
  exact (proj1 (proj1 (proj2 (checkMotorAlerts_batch Plant.MOTORS Plant.snapshot
                                Plant.envOf Scenario.start))
                  (AlertManager.reachable_init 0 Store.initialState))).
Defined.

(** X7 on the plant. *)
Lemma getStats_accounts_witness :
  AlertViews.st_info (AlertViews.getStats Scenario.after_breach) = 0.
Proof.
  exact (proj1 (proj2 (proj2 (getStats_accounts Scenario.after_breach
                                after_breach_reachable)))).
Defined.

(** X8 on the plant: the record of the alert of motor 1 survives the
    clearing. *)
Lemma clearResolvedAlerts_keeps_open_witness :
  exists h,
    AlertManager.history_find "motor1-temperature"
      (AlertManager.alertHistory
         (AlertManager.clearResolvedAlerts Scenario.after_breach))
    = Some h.
Proof.
  destruct (clearResolvedAlerts_keeps_open Scenario.after_breach)
    as (_ & _ & _ & _ & _ & _ & H).
  destruct (AlertManager.map_get "motor1-temperature"
              (AlertManager.activeAlerts Scenario.after_breach)) as [a|] eqn:Ea;
    [|vm_compute in Ea; discriminate].
  destruct (AlertManager.history_find "motor1-temperature"
              (AlertManager.alertHistory Scenario.after_breach)) as [h|] eqn:Eh;
    [|vm_compute in Eh; discriminate].
  exists h. exact (H after_breach_reachable _ a h Ea Eh).
Defined.

(** X10 on the plant: one critical alert. *)
Lemma badge_shows_highest_witness :
  (AlertViews.badge Scenario.after_breach).2 = "alert-badge alert-critical".
Proof.
  destruct (badge_shows_highest Scenario.after_breach after_breach_reachable)
    as [_ H].
  destruct H as (_ & Hc & _); [vm_compute; discriminate|].
  apply Hc. vm_compute. apply Exists_cons_hd. reflexivity.
Defined.

(** X11 on the plant: the breach and the recovery of motor 1, with the
    monitor's write of the reading in between. *)
Lemma store_alerts_never_resolved_witness :
  length
    (AlertManager.activeAlerts
       (AlertManager.run (AlertManager.init 0 Store.initialState)
          Plant.breach_and_recovery))
  <= length
       (Store.getActiveAlerts
          (AlertManager.stateStore
             (AlertManager.run (AlertManager.init 0 Store.initialState)
                Plant.breach_and_recovery))).
Proof.
  refine (proj2 (proj2 (proj2 (proj2
            (store_alerts_never_resolved 0%Z Plant.breach_and_recovery _ _))))).
  - split; [exact I|]. split; [|split; exact I].
    repeat split; reflexivity.
  - vm_compute. reflexivity.
Defined.

(** X12 on the plant: one attempt, in flight. *)
Lemma polling_metrics_add_up_witness :
  exists s,
    RealtimeMonitor.run Scenario.config
      (RealtimeMonitor.initial Store.initialState) Plant.first_cycle = Some s /\
    RealtimeMonitor.pollingAttempts s
    = RealtimeMonitor.pollingSuccess s + RealtimeMonitor.pollingErrors s
      + length (RealtimeMonitor.cyclesInFlight s).
Proof.
  eexists. split; [reflexivity|].
  apply (polling_metrics_add_up Scenario.config Store.initialState Plant.first_cycle).
  reflexivity.
Defined.

(** X13 on the plant: the timer set when the push layer gave up. *)
Lemma offline_recovers_witness :
  exists s i due,
    RealtimeMonitor.run Scenario.config
      (RealtimeMonitor.initial Store.initialState) Plant.gave_up = Some s /\
    RealtimeMonitor.recoveryTimers s !! i = Some due.
Proof.
  eexists.
  destruct (offline_recovers Scenario.config Store.initialState Plant.gave_up _
              eq_refl eq_refl) as (i & due & H & _).
  exists i, due. split; [reflexivity|exact H].
Defined.

(** X14 on the plant: a health check ten seconds after the connection. *)
Lemma checkConnectionHealth_window_witness :
  RealtimeMonitor.checkConnectionHealth 10000
    (RealtimeMonitor.onWebsocketConnected 0
       (RealtimeMonitor.initial Store.initialState))
  = RealtimeMonitor.onWebsocketConnected 0
      (RealtimeMonitor.initial Store.initialState).
Proof.
  apply (proj1 (checkConnectionHealth_window 0%Z 10000%Z
                  (RealtimeMonitor.initial Store.initialState))).
  lia.
Defined.

(** X15 on the plant: an empty response. *)
Lemma processPollingData_stores_witness :
  RealtimeMonitor.processPollingData Scenario.config ∅ 5 Store.initialState
  = Store.initialState.
Proof.
  apply (proj1 (processPollingData_stores Scenario.config ∅ 5%Z Store.initialState));
    try reflexivity; intros v _; reflexivity.
Defined.

(** X16 on the plant: a real reading of motor 1 after offline mode. *)
Lemma processPollingData_keeps_isSimulated_witness :
  RealtimeMonitor.simulated
    (RealtimeMonitor.processPollingData Scenario.config Scenario.reading 40000
       (RealtimeMonitor.stateStore Plant.offline))
    "motor1".
Proof.
  refine (proj1 (processPollingData_keeps_isSimulated Scenario.config
                   Scenario.reading 35000%Z 40000%Z Plant.offline "motor1" _ _ _)).
  - intros [H|[H|[H|[]]]]; discriminate.
  - intros [H|[H|[H|[]]]]; discriminate.
  - refine (proj1 (proj2 (proj2 (proj2
              (activateOfflineMode_spec 1000%Z Scenario.draws
                 (RealtimeMonitor.initial Store.initialState)))) _)).
    split; exists Store.initialMotor; reflexivity.
Defined.


(** X19 on the plant: a message with motor 1 at 106 degrees does not
    refresh [lastUpdate]. *)
Lemma telemetry_breach_keeps_lastUpdate_witness :
  Store.connection
    (SocketRuns.onmessage Plant.MOTORS (Some Plant.hot) 5 Store.initialState)
  = Store.connection Store.initialState.
Proof.
  refine (proj2 (proj1 (proj2 (telemetry_breach_keeps_lastUpdate Plant.MOTORS
                                 Plant.hot 5%Z Store.initialState)) _)).
  exists "motor1", (AlertViews.mkMotor "motor1" [Scenario.temperature]),
    Scenario.temperature, 106%Q.
  split; [left; reflexivity|]. split; [reflexivity|].
  split; [left; reflexivity|]. split; [reflexivity|].
  vm_compute. discriminate.
Defined.

(** X20 on the plant: the oil pressure of motor 1. *)
Lemma storeReadings_routes_witness :
  exists m,
    Store.motors
      (SocketRuns.storeReadings ([] ++ [("oil_pressure" +:+ "_motor1", 40%Q)]) 5
         Store.initialState) !! "motor1" = Some m /\
    Js.field m "oil_pressure" = Js.VNum 40 /\
    Js.field m "lastUpdate" = Js.VTime 5.
Proof.
  apply (proj1 (storeReadings_routes [] "oil_pressure" 40%Q 5%Z Store.initialState)).
  - reflexivity.
  - discriminate.
  - exists Store.initialMotor. reflexivity.
Defined.

(** X21 on the plant: connected at 0, a message with motor 1 at 106
    degrees at 35 s, a health check at 40 s. *)
Lemma breach_is_no_sign_of_life_witness :
  RealtimeMonitor.mode
    (RealtimeMonitor.checkConnectionHealth 40000
       (RealtimeMonitor.with_store
          (SocketRuns.onmessage Plant.MOTORS (Some Plant.hot) 35000)
          (RealtimeMonitor.onWebsocketConnected 0
             (RealtimeMonitor.initial Store.initialState))))
  = RealtimeMonitor.Polling.
Proof.
  refine (proj1 (breach_is_no_sign_of_life Plant.MOTORS Plant.hot 0%Z 35000%Z
                   40000%Z
                   (RealtimeMonitor.onWebsocketConnected 0
                      (RealtimeMonitor.initial Store.initialState))
                   eq_refl _) _ _).
  - reflexivity.
  - exists "motor1", (AlertViews.mkMotor "motor1" [Scenario.temperature]),
      Scenario.temperature, 106%Q.
    split; [left; reflexivity|]. split; [reflexivity|].
    split; [left; reflexivity|]. split; [reflexivity|].
    vm_compute. discriminate.
  - lia.
Defined.

(** ** The monitor after [stop()] *)

Section MonitorStopped.
Import Js RealtimeMonitor.

Lemma cycleFailed_handles msg t d s :
  started (cycleFailed msg t d s) = started s /\
  pollingInterval (cycleFailed msg t d s) = pollingInterval s.
Proof.
  unfold cycleFailed, handlePollingError.
  destruct (maxPollingRetries <=? _)%nat; split; reflexivity.
Qed.

Lemma step_stopped cfg n s te s' :
  step cfg s te = Some s' ->
  started s = true /\ pollingInterval s = false /\ pollingAttempts s = n ->
  started s' = true /\ pollingInterval s' = false /\ pollingAttempts s' = n.
Proof.
  intros H (Hst & Hpi & Hn). destruct te as [t e]. destruct e; simpl in H.
  - rewrite Hst in H. discriminate.
  - rewrite Hst in H. injection H as <-. auto.
  - rewrite Hst in H. injection H as <-. auto.
  - rewrite Hst in H. injection H as <-. auto.
  - rewrite Hst in H. injection H as <-.
    unfold checkConnectionHealth. destruct (_ && _); auto.
  - rewrite Hpi in H. discriminate.
  - destruct (cyclesInFlight s !! i); [|discriminate]. injection H as <-. auto.
  - destruct (cyclesInFlight s !! i); [|discriminate]. injection H as <-.
    destruct (cycleFailed_handles errorMessage t d
                (set_cyclesInFlight (delete i (cyclesInFlight s)) s)) as [-> ->].
    destruct (cycleFailed_counters errorMessage t d
                (set_cyclesInFlight (delete i (cyclesInFlight s)) s)) as (-> & _).
    auto.
  - destruct (recoveryTimers s !! i) as [due|]; [|discriminate]. simpl in H.
    destruct (due <=? t)%Z; [|discriminate]. injection H as <-.
    unfold recoveryAttempt. destruct (decide _); auto.
  - injection H as <-. auto.
Qed.

(** X22. [stop()] ends polling for good but leaves the listeners in
    place. Whatever is delivered to a started monitor after [stop()], no
    polling cycle begins (the attempts counter stays where it was and no
    tick can arrive); yet a [websocket:disconnected] event still sets the
    mode to polling, and the status written to the store says so. *)
Theorem stop_ends_polling cfg s trace s' :
  started s = true ->
  run cfg (stop s) trace = Some s' ->
  pollingAttempts s' = pollingAttempts s /\
  (forall t hasToken d, step cfg s' (t, Tick hasToken d) = None) /\
  (forall t, exists s'',
     step cfg s' (t, WsDisconnected) = Some s'' /\
     mode s'' = Polling /\
     field (Store.connection (stateStore s'')) "mode" = VStr "polling").
Proof.
  intros Hst Hrun.
  assert (started s' = true /\ pollingInterval s' = false /\
          pollingAttempts s' = pollingAttempts s) as (Hst' & Hpi' & Hn').
  { apply (run_invariant
             (fun x => started x = true /\ pollingInterval x = false /\
                       pollingAttempts x = pollingAttempts s)
             cfg (step_stopped cfg (pollingAttempts s)) trace _ _ Hrun).
    auto. }
  split; [exact Hn'|]. split.
  - intros t hasToken d. simpl. rewrite Hpi'. reflexivity.
  - intros t. simpl. rewrite Hst'. eexists. split; [reflexivity|].
    split; [reflexivity|]. simpl. apply field_spread_new. reflexivity.
Qed.

End MonitorStopped.

(** X22 on the plant: a monitor started and stopped, then the socket
    drops. *)
Lemma stop_ends_polling_witness :
  RealtimeMonitor.step Scenario.config
    (RealtimeMonitor.onWebsocketDisconnected 2000
       (RealtimeMonitor.stop
          (RealtimeMonitor.start 0 (RealtimeMonitor.initial Store.initialState))))
    (5000%Z, RealtimeMonitor.Tick true Scenario.draws)
  = None.
Proof.
  exact (proj1 (proj2 (stop_ends_polling Scenario.config
                         (RealtimeMonitor.start 0
                            (RealtimeMonitor.initial Store.initialState))
                         [(2000%Z, RealtimeMonitor.WsDisconnected)] _
                         eq_refl eq_refl))
           5000%Z true Scenario.draws).
Defined.
